(** * Privacy-preserving record linkage: Bloom filter encoding, BLIP
    hardening and the Dice-based linkage engine.

    Shallow embedding of [src/linkage/hardening.py], [src/linkage/hashing.py]
    and [compare_record_pairs] of [src/linkage/encoder.py].

    Python's [random] module is one process-wide generator.  It is modelled
    as a state [S] threaded explicitly through every call that uses it
    ([random.random], [random.choice], [random.randint], [random.shuffle],
    [random.seed]); the primitives the module builds these from are the
    fields of the class [PyRandom]. *)

From Stdlib Require Import ZArith QArith Qround String List Permutation Lia.
From stdpp Require Import base list.

Open Scope Z_scope.

(** ** The global [random] module *)

(** [random_bits s] is the 53-bit integer [k] behind [random.random()],
    which returns [k * 2^-53]; [randbelow n s] is [random._randbelow(n)]
    (a uniform integer in [[0, n)]); [seed n] is the state after
    [random.seed(n)]. *)
Class PyRandom (S : Type) := {
  random_bits : S -> Z * S;
  randbelow : Z -> S -> Z * S;
  seed : Z -> S
}.

Definition two_53 : positive := 9007199254740992.

Section RandomModule.
Context {S : Type} `{PyRandom S}.

(** [random.random()] *)
Definition random_random (s : S) : Q * S :=
  let '(k, s') := random_bits s in (k # two_53, s').

(** [random.choice(seq)] is [seq[self._randbelow(len(seq))]]. *)
Definition random_choice (seq : list Z) (s : S) : Z * S :=
  let '(i, s') := randbelow (Z.of_nat (length seq)) s in
  (nth (Z.to_nat i) seq 0, s').

(** [random.randint(a, b)] is [randrange(a, b + 1)], i.e.
    [a + self._randbelow(b + 1 - a)]; it is only called with [b >= a]. *)
Definition random_randint (a b : Z) (s : S) : Z * S :=
  let '(r, s') := randbelow (b + 1 - a) s in (a + r, s').

(** [x[i], x[j] = x[j], x[i]]: the right-hand side is read first, then
    [x[i]] and [x[j]] are assigned in that order. *)
Definition list_swap {A} (x : list A) (i j : nat) : list A :=
  match x !! i, x !! j with
  | Some xi, Some xj => <[j := xi]> (<[i := xj]> x)
  | _, _ => x
  end.

(** [random.shuffle(x)]:
    [for i in reversed(range(1, len(x))): j = randbelow(i + 1); swap]. *)
Fixpoint shuffle_from {A} (i : nat) (x : list A) (s : S) : list A * S :=
  match i with
  | O => (x, s)
  | Datatypes.S i' =>
      let '(j, s1) := randbelow (Z.of_nat i + 1) s in
      shuffle_from i' (list_swap x i (Z.to_nat j)) s1
  end.

Definition random_shuffle {A} (x : list A) (s : S) : list A * S :=
  shuffle_from (length x - 1) x s.

(** The first [n] values of [random.random()] drawn from [s]. *)
Fixpoint first_draws (n : nat) (s : S) : list Q :=
  match n with
  | O => []
  | Datatypes.S n' => let '(u, s') := random_random s in u :: first_draws n' s'
  end.

(** The state after [n] calls of [random.random()]. *)
Fixpoint skip_draws (n : nat) (s : S) : S :=
  match n with
  | O => s
  | Datatypes.S n' => skip_draws n' (snd (random_random s))
  end.

End RandomModule.

(** ** BLIP hardening ([hardening.py]) *)

Inductive sel_method := ala | sch.

Record BLIP := mk_BLIP_rec {
  blip_sel_method : sel_method;
  blip_prob : Q;
  random_seed : option Z
}.

(** [BLIP.__init__]: the selection method is one of ['ala'], ['sch'] by
    its type; [assert 0 <= blip_prob <= 1]. *)
Definition BLIP_init (sel : sel_method) (p : Q) (rseed : option Z) : option BLIP :=
  if Qle_bool 0 p && Qle_bool p 1 then Some (mk_BLIP_rec sel p rseed) else None.

Section Hardening.
Context {S : Type} `{PyRandom S}.

(** The body of the loop of [harden_bf] for one position: [rand =
    random.random()]; if [rand <= blip_prob] the bit is complemented
    ('ala') or replaced by [random.choice([0,1])] ('sch'); otherwise it is
    copied. *)
Definition harden_bit (b : BLIP) (bit : bool) (s : S) : bool * S :=
  let '(rand, s1) := random_random s in
  if Qle_bool rand (blip_prob b) then
    match blip_sel_method b with
    | ala => (negb bit, s1)
    | sch => let '(bit_val, s2) := random_choice [0; 1] s1 in
             (Z.eqb bit_val 1, s2)
    end
  else (bit, s1).

(** [BLIP.harden_bf]: positions are processed in order [0 .. len(bf)-1]. *)
Fixpoint harden_bf (b : BLIP) (bf : list bool) (s : S) : list bool * S :=
  match bf with
  | [] => ([], s)
  | bit :: rest =>
      let '(new_bit, s1) := harden_bit b bit s in
      let '(blip_rest, s2) := harden_bf b rest s1 in
      (new_bit :: blip_rest, s2)
  end.

End Hardening.

(** ** A concrete generator

    A counter-based generator, used to evaluate the model on concrete
    inputs: the state is an integer incremented by every call; the
    [random()] draws alternate between [0.0] (even states) and [0.5] (odd
    states), and [randbelow n] returns the state modulo [n]. *)
#[global] Instance counter_random : PyRandom Z := {
  random_bits s := ((s * 4503599627370496) mod 9007199254740992, s + 1);
  randbelow n s := (s mod n, s + 1);
  seed n := n
}.

(** ** Random hashing of q-gram sets ([hashing.py]) *)

(** [hash_funct] stands for [int(self.hash_funct(q.encode("utf-8"))
    .hexdigest(), 16)]: the digest of a q-gram read as an integer. *)
Record RandomHashing := mk_RH_rec {
  hash_funct : string -> Z;
  bf_len : Z;
  num_hash_funct : Z
}.

(** [RandomHashing.__init__] with [get_q_gram_pos=False] (the setting
    [encode_bfs] uses): [assert bf_len > 1], [assert num_hash_funct > 0]. *)
Definition RandomHashing_init (hf : string -> Z) (l k : Z) : option RandomHashing :=
  if (1 <? l) && (0 <? k) then Some (mk_RH_rec hf l k) else None.

(** [bf[i] = 1] on a bitarray: negative indices count from the end, an
    index out of range raises [IndexError] ([None]). *)
Definition bf_set (bf : list bool) (i : Z) : option (list bool) :=
  let n := Z.of_nat (length bf) in
  if (0 <=? i) && (i <? n) then Some (<[Z.to_nat i := true]> bf)
  else if (- n <=? i) && (i <? 0) then Some (<[Z.to_nat (n + i) := true]> bf)
  else None.

(** [if salt_str is not None: q_gram = q_gram + salt_str] *)
Definition salted (q : string) (salt_str : option string) : string :=
  match salt_str with
  | Some salt => (q ++ salt)%string
  | None => q
  end.

Section Hashing.
Context {S : Type} `{PyRandom S}.

(** [for i in range(k): pos_i = random.randint(0, bf_len_m1); bf[pos_i] = 1] *)
Fixpoint draw_and_set (n : nat) (bf_len_m1 : Z) (bf : list bool) (s : S)
    : option (list bool * S) :=
  match n with
  | O => Some (bf, s)
  | Datatypes.S n' =>
      let '(pos_i, s1) := random_randint 0 bf_len_m1 s in
      bf' ← bf_set bf pos_i;
      draw_and_set n' bf_len_m1 bf' s1
  end.

(** The loop over the q-gram set: every q-gram reseeds the global
    generator with its digest before drawing its [k] positions. *)
Fixpoint hash_loop (rh : RandomHashing) (salt_str : option string)
    (q_grams : list string) (bf : list bool) (s : S) : option (list bool * S) :=
  match q_grams with
  | [] => Some (bf, s)
  | q_gram :: rest =>
      let s1 := seed (hash_funct rh (salted q_gram salt_str)) in
      '(bf', s2) ← draw_and_set (Z.to_nat (num_hash_funct rh)) (bf_len rh - 1) bf s1;
      hash_loop rh salt_str rest bf' s2
  end.

(** [RandomHashing.hash_q_gram_set]: the q-gram set is given by its
    iteration order; the result is the Bloom filter and the global state
    the call leaves behind. *)
Definition hash_q_gram_set (rh : RandomHashing) (q_gram_set : list string)
    (salt_str : option string) (s : S) : option (list bool * S) :=
  hash_loop rh salt_str q_gram_set (replicate (Z.to_nat (bf_len rh)) false) s.

(** The positions [randint] yields for [k] draws from state [s]. *)
Fixpoint randint_draws (n : nat) (hi : Z) (s : S) : list Z :=
  match n with
  | O => []
  | Datatypes.S n' => let '(p, s') := random_randint 0 hi s in p :: randint_draws n' hi s'
  end.

(** The positions one q-gram is hashed to. *)
Definition q_gram_positions (rh : RandomHashing) (salt_str : option string)
    (q : string) : list Z :=
  randint_draws (Z.to_nat (num_hash_funct rh)) (bf_len rh - 1)
    (seed (hash_funct rh (salted q salt_str))).

End Hashing.

(** The number of 1-bits, [bf.count(1)]. *)
Definition popcount (bf : list bool) : nat := length (List.filter (fun b => b) bf).

(** A Bloom filter with the bits at the positions [P] set on top of [bf]. *)
Definition mark (bf : list bool) (P : list Z) : list bool :=
  imap (fun i b => b || existsb (Z.eqb (Z.of_nat i)) P) bf.

(** ** Similarity *)

(** Modelled from the spec: [simcalc.bit_array_dice_sim], whose module is
    not part of the sources.  Dice(A,B) = 2 popcount(A AND B) /
    (popcount(A) + popcount(B)), and 0 when both popcounts are 0. *)
Definition bit_array_dice_sim (a b : list bool) : Q :=
  let num := popcount (zip_with andb a b) in
  let den := (popcount a + popcount b)%nat in
  if Nat.eqb den 0 then 0%Q
  else (inject_Z (2 * Z.of_nat num) / inject_Z (Z.of_nat den))%Q.

(** ** The linkage engine ([compare_record_pairs] in [encoder.py]) *)

(** A record dictionary: its q-gram set and the attributes ["og_bf"] and
    ["hd_bf"], which are absent until encoding and hardening fill them. *)
Record rec := mk_rec {
  q_gram_set : list string;
  og_bf : option (list bool);
  hd_bf : option (list bool)
}.

Definition set_hd_bf (r : rec) (bf : list bool) : rec :=
  mk_rec (q_gram_set r) (og_bf r) (Some bf).

(** A Python dict, in its iteration order. *)
Abbreviation dict A := (list (string * A)).

(** [d[k] = v]: an existing key keeps its place, a new key is appended. *)
Fixpoint dict_set {A} (d : dict A) (k : string) (v : A) : dict A :=
  match d with
  | [] => [(k, v)]
  | (k', v') :: d' => if String.eqb k k' then (k, v) :: d' else (k', v') :: dict_set d' k v
  end.

(** [dict(items)] *)
Definition dict_of_items {A} (items : list (string * A)) : dict A :=
  fold_left (fun d kv => dict_set d kv.1 kv.2) items [].

(** [{**d1, **d2}] *)
Definition dict_merge {A} (d1 d2 : dict A) : dict A :=
  dict_of_items (d1 ++ d2).

(** The four outcome counters of one similarity variant. *)
Record counters := mk_counters {
  c11_correct : nat;
  c11_wrong : nat;
  c1n_correct : nat;
  c1n_wrong : nat
}.

Definition counters0 : counters := mk_counters 0 0 0 0.

Definition incr_11_correct (c : counters) : counters :=
  mk_counters (Datatypes.S (c11_correct c)) (c11_wrong c) (c1n_correct c) (c1n_wrong c).
Definition incr_11_wrong (c : counters) : counters :=
  mk_counters (c11_correct c) (Datatypes.S (c11_wrong c)) (c1n_correct c) (c1n_wrong c).
Definition incr_1n_correct (c : counters) : counters :=
  mk_counters (c11_correct c) (c11_wrong c) (Datatypes.S (c1n_correct c)) (c1n_wrong c).
Definition incr_1n_wrong (c : counters) : counters :=
  mk_counters (c11_correct c) (c11_wrong c) (c1n_correct c) (Datatypes.S (c1n_wrong c)).

Definition counters_total (c : counters) : nat :=
  (c11_correct c + c11_wrong c + c1n_correct c + c1n_wrong c)%nat.

(** Python's [max(values)]: the first value, replaced by every later value
    strictly greater than it; [ValueError] on an empty sequence. *)
Fixpoint py_max_from (m : Q) (l : list Q) : Q :=
  match l with
  | [] => m
  | v :: l' => py_max_from (if Qle_bool v m then m else v) l'
  end.

Definition py_max (l : list Q) : option Q :=
  match l with
  | [] => None
  | v :: l' => Some (py_max_from v l')
  end.

(** The classification of one query record for one variant:
    [max_value = max(sim_data.values())],
    [max_keys = [k for k, v in sim_data.items() if v == max_value]] and the
    two [if] statements that update the counters. *)
Definition record_outcome (rec_id : string) (sim_data : dict Q) (c : counters)
    : option counters :=
  max_value ← py_max (map snd sim_data);
  let max_keys := map fst (List.filter (fun kv => Qeq_bool kv.2 max_value) sim_data) in
  let c1 :=
    if Nat.eqb (length max_keys) 1 then
      match max_keys with
      | k0 :: _ => if String.eqb k0 rec_id then incr_11_correct c else incr_11_wrong c
      | [] => c
      end
    else c in
  Some (if Nat.ltb 1 (length max_keys) then
          if existsb (String.eqb rec_id) max_keys then incr_1n_correct c1
          else incr_1n_wrong c1
        else c1).

(** The spec's maximal candidates: the keys whose similarity no other
    candidate's similarity exceeds. *)
Definition maximal (sim_data : dict Q) (k : string) : Prop :=
  exists v, In (k, v) sim_data /\ forall k' v', In (k', v') sim_data -> (v' <= v)%Q.

(** The similarities of one query record against every candidate of the
    comparison pool, original and hardened; a candidate without an
    ["og_bf"] or ["hd_bf"] fails an [assert]. *)
Fixpoint similarities (og hd : list bool) (pool : dict rec) : option (dict Q * dict Q) :=
  match pool with
  | [] => Some ([], [])
  | (cid, c) :: pool' =>
      c_og ← og_bf c;
      c_hd ← hd_bf c;
      '(og_sims, hd_sims) ← similarities og hd pool';
      Some ((cid, bit_array_dice_sim og c_og) :: og_sims,
            (cid, bit_array_dice_sim hd c_hd) :: hd_sims)
  end.

(** The loop over the query records of the subset; the first counters are
    those of ["og_bf_dice"], the second those of ["blip_bf_dice"]. *)
Fixpoint compare_loop (subset pool : dict rec) (co ch : counters)
    : option (counters * counters) :=
  match subset with
  | [] => Some (co, ch)
  | (rec_id, r) :: rest =>
      og ← og_bf r;
      hd ← hd_bf r;
      '(og_sims, hd_sims) ← similarities og hd pool;
      co' ← record_outcome rec_id og_sims co;
      ch' ← record_outcome rec_id hd_sims ch;
      compare_loop rest pool co' ch'
  end.

Section Linkage.
Context {S : Type} `{PyRandom S}.

(** [for rec_id, rec_data in d.items(): assert "og_bf" in rec_data;
    rec_data["hd_bf"] = hd_instance.harden_bf(rec_data["og_bf"])] *)
Fixpoint harden_pass (b : BLIP) (d : dict rec) (s : S) : option (dict rec * S) :=
  match d with
  | [] => Some ([], s)
  | (rid, r) :: d' =>
      og ← og_bf r;
      let '(blip_bf, s1) := harden_bf b og s in
      '(d'', s2) ← harden_pass b d' s1;
      Some ((rid, set_hd_bf r blip_bf) :: d'', s2)
  end.

(** [all_records_to_compare]: the merge [{**base, **subset}], its items
    shuffled with the global generator and turned back into a dict. *)
Definition comparison_pool (base subset : dict rec) (s : S) : dict rec * S :=
  let '(l, s1) := random_shuffle (dict_merge base subset) s in
  (dict_of_items l, s1).

(** The size check [assert len(all_records_to_compare) == (len(rec_type_dict)
    + len(base_records)) == (base_sample_size + 1000)], a chained
    comparison. *)
Definition pool_size_ok (pool base subset : dict rec) (base_sample_size : Z) : bool :=
  Nat.eqb (length pool) (length subset + length base) &&
  Z.eqb (Z.of_nat (length subset + length base)) (base_sample_size + 1000).

(** The body of the loop of [compare_record_pairs] for one subset
    [rec_type_dict]: pool, hardening pass A on the subset with a first
    [BLIP] instance, pass B on the pool with a second one, the size check,
    then the comparisons.  The result is the two counter records of the
    subset and the global state left behind; [None] is an abort. *)
Definition process_subset (blip_sel : sel_method) (blip_flip_prob : Q)
    (base subset : dict rec) (base_sample_size : Z) (s : S)
    : option (counters * counters * S) :=
  let '(pool, s1) := comparison_pool base subset s in
  hd1 ← BLIP_init blip_sel blip_flip_prob (Some 42);
  '(subset', s2) ← harden_pass hd1 subset s1;
  hd2 ← BLIP_init blip_sel blip_flip_prob (Some 42);
  '(pool', s3) ← harden_pass hd2 pool s2;
  if pool_size_ok pool' base subset' base_sample_size then
    '(co, ch) ← compare_loop subset' pool' counters0 counters0;
    Some (co, ch, s3)
  else None.

End Linkage.

(** ** Sample inputs *)

(** A stand-in for [int(hashlib.md5(q.encode("utf-8")).hexdigest(), 16)]:
    a polynomial hash of the characters of [q]. *)
Definition toy_digest (q : string) : Z :=
  fold_left (fun h c => h * 131 + Z.of_nat (Ascii.nat_of_ascii c)) (list_ascii_of_string q) 7.

Definition digit (n : nat) : string :=
  String (Ascii.ascii_of_nat (48 + n mod 10)) EmptyString.

(** The record identifier ["0000"] .. ["9999"] of [i]. *)
Definition rec_id_of (i : nat) : string :=
  (digit (i / 1000) ++ digit (i / 100) ++ digit (i / 10) ++ digit i)%string.

(** A subset of [n] encoded records with the same Bloom filter. *)
Definition sample_subset (n : nat) : dict rec :=
  map (fun i => (rec_id_of i, mk_rec [] (Some [true; false]) None)) (seq 0 n).

Definition sample_rec : rec := mk_rec ["ab"%string] (Some [true; false]) None.

(** Two encoded records with different Bloom filters. *)
Definition sample_rec_x : rec := mk_rec ["x"%string] (Some [true; false; true; false]) None.
Definition sample_rec_y : rec := mk_rec ["y"%string] (Some [true; true; false; false]) None.

(** ** Random hashing with [get_q_gram_pos=True] ([hashing.py]) *)

(** [q_gram_pos_set.add(pos_i)] on a Python set of positions, kept in
    insertion order. *)
Definition set_add (ps : list Z) (x : Z) : list Z :=
  if existsb (Z.eqb x) ps then ps else ps ++ [x].

Section HashingPos.
Context {S : Type} `{PyRandom S}.

(** The inner loop when [get_q_gram_pos] is set:
    [pos_i = random.randint(0, bf_len_m1); bf[pos_i] = 1;
    q_gram_pos_set.add(pos_i)]. *)
Fixpoint draw_and_set_pos (n : nat) (bf_len_m1 : Z) (bf : list bool)
    (q_gram_pos_set : list Z) (s : S) : option (list bool * list Z * S) :=
  match n with
  | O => Some (bf, q_gram_pos_set, s)
  | Datatypes.S n' =>
      let '(pos_i, s1) := random_randint 0 bf_len_m1 s in
      bf' ← bf_set bf pos_i;
      draw_and_set_pos n' bf_len_m1 bf' (set_add q_gram_pos_set pos_i) s1
  end.

(** The loop over the q-gram set when [get_q_gram_pos] is set: the
    (salted) q-gram is the key of [q_gram_pos_dict], its value the set of
    its positions. *)
Fixpoint hash_loop_pos (rh : RandomHashing) (salt_str : option string)
    (q_grams : list string) (bf : list bool) (q_gram_pos_dict : dict (list Z)) (s : S)
    : option (list bool * dict (list Z) * S) :=
  match q_grams with
  | [] => Some (bf, q_gram_pos_dict, s)
  | q_gram :: rest =>
      let q_gram' := salted q_gram salt_str in
      let s1 := seed (hash_funct rh q_gram') in
      '(bf', q_gram_pos_set, s2) ←
        draw_and_set_pos (Z.to_nat (num_hash_funct rh)) (bf_len rh - 1) bf [] s1;
      hash_loop_pos rh salt_str rest bf' (dict_set q_gram_pos_dict q_gram' q_gram_pos_set) s2
  end.

(** [RandomHashing.hash_q_gram_set] on an instance created with
    [get_q_gram_pos=True] (the same [__init__] checks): it returns
    [bf, q_gram_pos_dict]. *)
Definition hash_q_gram_set_pos (rh : RandomHashing) (q_gram_set : list string)
    (salt_str : option string) (s : S) : option (list bool * dict (list Z) * S) :=
  hash_loop_pos rh salt_str q_gram_set (replicate (Z.to_nat (bf_len rh)) false) [] s.

End HashingPos.

(** ** Reading the sampled records ([read_extracted_data] in [encoder.py]) *)

Definition FILTERED_ID_TYPES : list string :=
  ["f_h"; "f_l"; "f_a"; "q_f"; "q_r"; "q_a"; "l_h"; "l_s"; "l_a"; "r1"; "r2"; "r3"; "b"]%string.

(** [d[k]]; [None] is a [KeyError]. *)
Fixpoint dict_get {A} (d : dict A) (k : string) : option A :=
  match d with
  | [] => None
  | (k', v) :: d' => if String.eqb k k' then Some v else dict_get d' k
  end.

(** [k in d] *)
Definition dict_mem {A} (d : dict A) (k : string) : bool :=
  existsb (String.eqb k) (map fst d).

(** One row [rec_list] of the CSV reader (its fields, as [csv.reader]
    splits them); [ev] is [eval] of the q-gram set field, [None] when it
    raises.  A row with fewer than three fields raises [IndexError].
    [all_data_dict] and [dup_type_counter] only feed the log output and are
    deleted before the return; the [eval] of the same field they make is
    repeated below for [type_wise_dict]. *)
Definition read_row (ev : string -> option (list string)) (type_wise_dict : dict (dict rec))
    (rec_list : list string) : option (dict (dict rec)) :=
  rec_type ← nth_error rec_list 2;
  if existsb (String.eqb rec_type) FILTERED_ID_TYPES then
    rec_id ← nth_error rec_list 0;
    field ← nth_error rec_list 1;
    let type_dict := default [] (dict_get type_wise_dict rec_type) in
    if dict_mem type_dict rec_id then None
    else
      qs ← ev field;
      Some (dict_set type_wise_dict rec_type (dict_set type_dict rec_id (mk_rec qs None None)))
  else None.

Fixpoint read_rows (ev : string -> option (list string)) (rows : list (list string))
    (type_wise_dict : dict (dict rec)) : option (dict (dict rec)) :=
  match rows with
  | [] => Some type_wise_dict
  | rec_list :: rest =>
      type_wise_dict' ← read_row ev type_wise_dict rec_list;
      read_rows ev rest type_wise_dict'
  end.

(** [sum(len(type_dict) for type_dict in type_wise_dict.values())] *)
Definition total_records (type_wise_dict : dict (dict rec)) : nat :=
  list_sum (map (fun kv => length kv.2) type_wise_dict).

(** [type_wise_dict[rec_type][rec_id]] *)
Definition lookup_record (type_wise_dict : dict (dict rec)) (rec_type rec_id : string)
    : option rec :=
  type_dict ← dict_get type_wise_dict rec_type;
  dict_get type_dict rec_id.

(** [read_extracted_data(file_name, base_sample_size)] on the rows of the
    file: the header row, then the data rows. *)
Definition read_extracted_data (ev : string -> option (list string))
    (lines : list (list string)) (base_sample_size : Z) : option (dict (dict rec)) :=
  match lines with
  | [] => None
  | header_list :: rows =>
      if List.list_eq_dec String.string_dec header_list ["rec_id"; "q_gram_set"; "type"]%string
      then
        type_wise_dict ← read_rows ev rows [];
        if Z.eqb (Z.of_nat (total_records type_wise_dict)) (base_sample_size + 12000) then
          if Nat.eqb (length type_wise_dict) (length FILTERED_ID_TYPES) then Some type_wise_dict
          else None
        else None
      else None
  end.

(** A sample extract: the header and one row per record type, each with
    its own record identifier. *)
Definition sample_csv : list (list string) :=
  ["rec_id"; "q_gram_set"; "type"]%string
  :: map (fun t => [("id_" ++ t)%string; "{'ab', 'bc'}"%string; t]) FILTERED_ID_TYPES.

(** A stand-in for [eval] of a q-gram set field: the field as one q-gram. *)
Definition sample_eval (field : string) : option (list string) := Some [field].

(** ** Encoding ([encode_bfs] in [encoder.py] and its call in the main block) *)

(** [rec_data["og_bf"] = bf] *)
Definition set_og_bf (r : rec) (bf : list bool) : rec :=
  mk_rec (q_gram_set r) (Some bf) (hd_bf r).

(** Python's [int(x)] on a number: truncation toward zero. *)
Definition py_int (x : Q) : Z :=
  if Qle_bool 0 x then Qfloor x else - Qfloor (- x).

(** [k_val = int(k_ratio * k_opt)] in the main block of [encoder.py]. *)
Definition k_val_of (k_ratio : Q) (k_opt : Z) : Z := py_int (k_ratio * inject_Z k_opt).

Section Encoding.
Context {S : Type} `{PyRandom S}.

(** [for rec_id, rec_data in rec_type_dict.items():
    bf = RH.hash_q_gram_set(rec_data["q_gram_set"]); ... ["og_bf"] = bf] *)
Fixpoint encode_type_dict (rh : RandomHashing) (rec_type_dict : dict rec) (s : S)
    : option (dict rec * S) :=
  match rec_type_dict with
  | [] => Some ([], s)
  | (rec_id, rec_data) :: d' =>
      '(bf, s1) ← hash_q_gram_set rh (q_gram_set rec_data) None s;
      '(d'', s2) ← encode_type_dict rh d' s1;
      Some ((rec_id, set_og_bf rec_data bf) :: d'', s2)
  end.

Fixpoint encode_types (rh : RandomHashing) (data_dict : dict (dict rec)) (s : S)
    : option (dict (dict rec) * S) :=
  match data_dict with
  | [] => Some ([], s)
  | (rec_type, rec_type_dict) :: data' =>
      '(d', s1) ← encode_type_dict rh rec_type_dict s;
      '(data'', s2) ← encode_types rh data' s1;
      Some ((rec_type, d') :: data'', s2)
  end.

(** [encode_bfs(data_dict, l_b, k_val)]: [RH = hashing.RandomHashing(
    hashlib.md5, l_b, k_val)], with [hf] the MD5 digest read as an
    integer, then every record of every type is encoded. *)
Definition encode_bfs (hf : string -> Z) (l_b k_val : Z) (data_dict : dict (dict rec)) (s : S)
    : option (dict (dict rec) * S) :=
  RH ← RandomHashing_init hf l_b k_val;
  encode_types RH data_dict s.

End Encoding.

(** ** The loop over the record types ([compare_record_pairs]) *)

Section CompareAll.
Context {S : Type} `{PyRandom S}.

(** [for rec_type, rec_type_dict in data_dict.items()]: the base type ["b"]
    is skipped; any other type must be known and not yet in [res_dict],
    then it is processed as one subset against the base records.  The
    result is [res_dict] (the counters of ["og_bf_dice"] and
    ["blip_bf_dice"] per type).  The ["hd_bf"] the subset pass writes into
    [data_dict] is read by no later iteration. *)
Fixpoint compare_types (blip_sel : sel_method) (blip_flip_prob : Q) (base_sample_size : Z)
    (base_records : dict rec) (data : dict (dict rec)) (res_dict : dict (counters * counters))
    (s : S) : option (dict (counters * counters) * S) :=
  match data with
  | [] => Some (res_dict, s)
  | (rec_type, rec_type_dict) :: data' =>
      if String.eqb rec_type "b" then
        compare_types blip_sel blip_flip_prob base_sample_size base_records data' res_dict s
      else if existsb (String.eqb rec_type) FILTERED_ID_TYPES && negb (dict_mem res_dict rec_type)
      then
        '(co, ch, s1) ← process_subset blip_sel blip_flip_prob base_records rec_type_dict
                          base_sample_size s;
        compare_types blip_sel blip_flip_prob base_sample_size base_records data'
          (dict_set res_dict rec_type (co, ch)) s1
      else None
  end.

(** [compare_record_pairs(data_dict, blip_sel_method, blip_flip_prob,
    base_sample_size)]: [base_records = data_dict["b"]], then the loop. *)
Definition compare_record_pairs (data_dict : dict (dict rec)) (blip_sel_method : sel_method)
    (blip_flip_prob : Q) (base_sample_size : Z) (s : S)
    : option (dict (counters * counters) * S) :=
  base_records ← dict_get data_dict "b";
  compare_types blip_sel_method blip_flip_prob base_sample_size base_records data_dict [] s.

End CompareAll.

(** * Properties *)

(** ** Hardening *)

Section HardeningFacts.
Context {S : Type} `{PyRandom S}.

(** [random.random()] lies in [[0, 1)]. *)
Hypothesis random_bits_range : forall s, 0 <= fst (random_bits s) < Zpos two_53.

Lemma random_random_le_1 s : Qle_bool (fst (random_random s)) 1 = true.
Proof.
  unfold random_random. pose proof (random_bits_range s) as Hr.
  destruct (random_bits s) as [k s']; simpl in *.
  apply Qle_bool_iff. unfold Qle; simpl. lia.
Qed.

Lemma harden_bf_length b bf s : length (harden_bf b bf s).1 = length bf.
Proof.
  revert s; induction bf as [|bit rest IH]; intros s; simpl; [done|].
  destruct (harden_bit b bit s) as [nb s1].
  specialize (IH s1). destruct (harden_bf b rest s1) as [r s2]; simpl in *; lia.
Qed.

(** C5: with [p = 1] and 'ala' every position is selected, so the result
    is the bitwise complement of [bf], whatever the state of the global
    generator. *)
Theorem harden_bf_ala_one_complement (rseed : option Z) (bf : list bool) (s : S) :
  (harden_bf (mk_BLIP_rec ala 1 rseed) bf s).1 = map negb bf.
Proof.
  revert s; induction bf as [|bit rest IH]; intros s; simpl; [done|].
  unfold harden_bit. pose proof (random_random_le_1 s) as Hle.
  destruct (random_random s) as [rand s1]; simpl in *. rewrite Hle.
  specialize (IH s1). destruct (harden_bf _ rest s1) as [r s2]; simpl in *.
  by rewrite IH.
Qed.

End HardeningFacts.

Section HardeningGeneric.
Context {S : Type} `{PyRandom S}.

(** C10: [random_seed] is stored by [BLIP.__init__] and read nowhere:
    two instances that differ only in it harden every Bloom filter the
    same way from every state of the global generator, and leave the same
    state behind. *)
Theorem harden_bf_random_seed_unused (sel : sel_method) (p : Q) (r1 r2 : option Z)
    (bf : list bool) (s : S) :
  harden_bf (mk_BLIP_rec sel p r1) bf s = harden_bf (mk_BLIP_rec sel p r2) bf s.
Proof.
  revert s; induction bf as [|bit rest IH]; intros s; simpl; [done|].
  assert (harden_bit (mk_BLIP_rec sel p r1) bit s = harden_bit (mk_BLIP_rec sel p r2) bit s)
    as -> by reflexivity.
  destruct (harden_bit _ bit s) as [nb s1]. by rewrite IH.
Qed.

(** C4 (amended): with [p = 0] and 'sch', [harden_bf] returns [bf]
    unchanged provided none of the [random.random()] draws it makes is
    exactly [0.0]; it then makes one draw per bit. *)
Theorem harden_bf_sch_zero_identity (rseed : option Z) (bf : list bool) (s : S) :
  Forall (fun u => (0 < u)%Q) (first_draws (length bf) s) ->
  harden_bf (mk_BLIP_rec sch 0 rseed) bf s = (bf, skip_draws (length bf) s).
Proof.
  revert s; induction bf as [|bit rest IH]; intros s Hpos; simpl in *; [done|].
  unfold harden_bit; simpl.
  destruct (random_random s) as [rand s1] eqn:Hr; simpl in *.
  inversion Hpos as [|? ? Hu Hrest]; subst.
  assert (Qle_bool rand 0 = false) as ->.
  { destruct (Qle_bool rand 0) eqn:E; [|done].
    apply Qle_bool_iff in E. exfalso. apply (Qlt_not_le _ _ Hu E). }
  rewrite (IH s1 Hrest). done.
Qed.

End HardeningGeneric.

(** ** Random hashing *)

Lemma mark_nil (bf : list bool) : mark bf [] = bf.
Proof.
  apply list_eq; intros i. unfold mark. rewrite list_lookup_imap.
  destruct (bf !! i); simpl; [by rewrite orb_false_r|done].
Qed.

Lemma length_mark (bf : list bool) P : length (mark bf P) = length bf.
Proof. apply length_imap. Qed.

Lemma mark_insert (bf : list bool) (P : list Z) (p : Z) :
  0 <= p < Z.of_nat (length bf) ->
  <[Z.to_nat p := true]> (mark bf P) = mark bf (P ++ [p]).
Proof.
  intros Hp. apply list_eq; intros i.
  rewrite list_lookup_insert, length_mark. unfold mark. rewrite !list_lookup_imap.
  destruct (decide _) as [[<- Hlt]|Hne].
  - destruct (lookup_lt_is_Some_2 bf (Z.to_nat p) Hlt) as [b ->]; simpl.
    rewrite existsb_app; simpl. rewrite Z2Nat.id, Z.eqb_refl by lia.
    by rewrite !orb_true_r.
  - assert (Z.to_nat p <> i) as Hpi by (intros <-; apply Hne; split; [done|lia]).
    destruct (bf !! i); simpl; [|done].
    rewrite existsb_app; simpl.
    assert (Z.eqb (Z.of_nat i) p = false) as -> by (apply Z.eqb_neq; lia).
    by rewrite orb_false_r.
Qed.

(** Two position lists with the same members mark the same bits. *)
Lemma mark_same_members (bf : list bool) (P1 P2 : list Z) :
  (forall x, In x P1 <-> In x P2) -> mark bf P1 = mark bf P2.
Proof.
  intros Hm. apply list_eq; intros i. unfold mark. rewrite !list_lookup_imap.
  destruct (bf !! i); simpl; [|done]. do 2 f_equal.
  destruct (existsb _ P1) eqn:E1, (existsb _ P2) eqn:E2; try done.
  - apply existsb_exists in E1 as (x & Hx & Hf).
    assert (existsb (Z.eqb (Z.of_nat i)) P2 = true) as E;
      [apply existsb_exists; exists x; split; [by apply Hm|done]|congruence].
  - apply existsb_exists in E2 as (x & Hx & Hf).
    assert (existsb (Z.eqb (Z.of_nat i)) P1 = true) as E;
      [apply existsb_exists; exists x; split; [by apply Hm|done]|congruence].
Qed.

Lemma popcount_insert_true (bf : list bool) (i : nat) :
  (popcount (<[i := true]> bf) <= Datatypes.S (popcount bf))%nat.
Proof.
  unfold popcount. revert i; induction bf as [|b bf IH]; intros [|i]; simpl; try lia.
  - destruct b; simpl; lia.
  - specialize (IH i). destruct b; simpl; lia.
Qed.

Lemma bf_set_popcount (bf bf' : list bool) (i : Z) :
  bf_set bf i = Some bf' -> (popcount bf' <= Datatypes.S (popcount bf))%nat.
Proof.
  unfold bf_set. intros Hs.
  destruct ((0 <=? i) && (i <? Z.of_nat (length bf))).
  - injection Hs as <-. apply popcount_insert_true.
  - destruct ((- Z.of_nat (length bf) <=? i) && (i <? 0)); [|done].
    injection Hs as <-. apply popcount_insert_true.
Qed.

Lemma length_randint_draws {St : Type} `{PyRandom St} n hi (s : St) :
  length (randint_draws n hi s) = n.
Proof.
  revert s; induction n as [|n IH]; intros s; simpl; [done|].
  destruct (random_randint 0 hi s) as [p s']; simpl. by rewrite IH.
Qed.

Lemma length_flat_map_positions {St : Type} `{PyRandom St} rh salt (qs : list string) :
  length (flat_map (q_gram_positions (S:=St) rh salt) qs)
  = (length qs * Z.to_nat (num_hash_funct rh))%nat.
Proof.
  induction qs as [|q qs IH]; simpl; [done|].
  rewrite length_app, IH. unfold q_gram_positions. rewrite length_randint_draws. lia.
Qed.

Section HashingFacts.
Context {S : Type} `{PyRandom S}.

Lemma draw_and_set_popcount n hi (bf bf' : list bool) (s s' : S) :
  draw_and_set n hi bf s = Some (bf', s') -> (popcount bf' <= popcount bf + n)%nat.
Proof.
  revert bf s; induction n as [|n IH]; intros bf s Hd; cbn [draw_and_set] in Hd.
  - injection Hd as <- <-. lia.
  - destruct (random_randint 0 hi s) as [pos s1].
    destruct (bf_set bf pos) as [bf1|] eqn:Eset; simpl in Hd; [|done].
    apply bf_set_popcount in Eset. apply IH in Hd. lia.
Qed.

Lemma hash_loop_popcount rh salt (qs : list string) (bf bf' : list bool) (s s' : S) :
  hash_loop rh salt qs bf s = Some (bf', s') ->
  (popcount bf' <= popcount bf + length qs * Z.to_nat (num_hash_funct rh))%nat.
Proof.
  revert bf s; induction qs as [|q qs IH]; intros bf s Hl; cbn [hash_loop] in Hl.
  - injection Hl as <- <-. simpl. lia.
  - destruct (draw_and_set _ _ bf _) as [[bf1 s2]|] eqn:Ed; simpl in Hl; [|done].
    apply draw_and_set_popcount in Ed. apply IH in Hl. simpl. lia.
Qed.

(** [random._randbelow(n)] lies in [[0, n)]. *)
Hypothesis randbelow_range : forall n s, 0 < n -> 0 <= fst (randbelow n s) < n.

Lemma randint_range hi s : 0 <= hi -> 0 <= fst (random_randint 0 hi s) <= hi.
Proof.
  intros Hhi. unfold random_randint.
  pose proof (randbelow_range (hi + 1 - 0) s ltac:(lia)) as Hr.
  destruct (randbelow (hi + 1 - 0) s) as [r s']; simpl in *. lia.
Qed.

Lemma bf_set_in_range (bf : list bool) (p : Z) :
  0 <= p < Z.of_nat (length bf) -> bf_set bf p = Some (<[Z.to_nat p := true]> bf).
Proof.
  intros Hp. unfold bf_set.
  rewrite (proj2 (Z.leb_le 0 p)), (proj2 (Z.ltb_lt p _)) by lia. done.
Qed.

Lemma draw_and_set_mark n hi (bf : list bool) P (s : S) :
  0 <= hi -> Z.of_nat (length bf) = hi + 1 ->
  exists s', draw_and_set n hi (mark bf P) s = Some (mark bf (P ++ randint_draws n hi s), s').
Proof.
  intros Hhi Hlen. revert P s; induction n as [|n IH]; intros P s.
  - exists s. simpl. by rewrite app_nil_r.
  - cbn [draw_and_set randint_draws].
    pose proof (randint_range hi s Hhi) as Hr.
    destruct (random_randint 0 hi s) as [pos s1]; simpl in Hr.
    rewrite bf_set_in_range by (rewrite length_mark; lia).
    rewrite mark_insert by lia. simpl.
    destruct (IH (P ++ [pos]) s1) as [s' ->]. exists s'.
    by rewrite <- app_assoc.
Qed.

Lemma hash_loop_mark rh salt (qs : list string) (bf : list bool) P (s : S) :
  1 < bf_len rh -> Z.of_nat (length bf) = bf_len rh ->
  exists s', hash_loop rh salt qs (mark bf P) s
             = Some (mark bf (P ++ flat_map (q_gram_positions rh salt) qs), s').
Proof.
  intros Hl Hlen. revert P s; induction qs as [|q qs IH]; intros P s.
  - exists s. simpl. by rewrite app_nil_r.
  - cbn [hash_loop flat_map].
    destruct (draw_and_set_mark (Z.to_nat (num_hash_funct rh)) (bf_len rh - 1) bf P
                (seed (hash_funct rh (salted q salt))) ltac:(lia) ltac:(lia)) as [s1 ->].
    simpl. fold (q_gram_positions rh salt q).
    destruct (IH (P ++ q_gram_positions rh salt q) s1) as [s' ->].
    exists s'. by rewrite <- app_assoc.
Qed.

(** The Bloom filter of a q-gram set has exactly the bits set that one of
    its q-grams is hashed to, whatever the state of the global generator
    at the call. *)
Lemma hash_q_gram_set_mark hf l k rh (qs : list string) salt (s : S) :
  RandomHashing_init hf l k = Some rh ->
  exists s', hash_q_gram_set rh qs salt s
    = Some (mark (replicate (Z.to_nat l) false) (flat_map (q_gram_positions rh salt) qs), s').
Proof.
  unfold RandomHashing_init. intros Hi.
  destruct ((1 <? l) && (0 <? k)) eqn:E; [|done]. injection Hi as <-.
  apply andb_prop in E as [E1 _]. apply Z.ltb_lt in E1.
  destruct (hash_loop_mark (mk_RH_rec hf l k) salt qs (replicate (Z.to_nat l) false) []
              s ltac:(simpl; lia) ltac:(simpl; rewrite length_replicate; lia)) as [s' Hm].
  rewrite mark_nil in Hm. exists s'. exact Hm.
Qed.

(** C6: two calls of [hash_q_gram_set] with the same arguments return
    the same Bloom filter, whatever other computation changed the global
    generator between them. *)
Theorem hash_q_gram_set_deterministic hf l k rh (qs : list string)
    (salt : option string) (s1 s2 : S) :
  RandomHashing_init hf l k = Some rh ->
  exists bf, option_map fst (hash_q_gram_set rh qs salt s1) = Some bf
          /\ option_map fst (hash_q_gram_set rh qs salt s2) = Some bf.
Proof.
  intros Hi.
  destruct (hash_q_gram_set_mark hf l k rh qs salt s1 Hi) as [s1' ->].
  destruct (hash_q_gram_set_mark hf l k rh qs salt s2 Hi) as [s2' ->].
  eexists; split; reflexivity.
Qed.

(** C7: the popcount of the Bloom filter is at most [|Q| * k], and the
    Bloom filter does not depend on the iteration order of the q-gram set
    (nor on the state of the global generator). *)
Theorem hash_q_gram_set_popcount_order hf l k rh (qs qs' : list string)
    (salt : option string) (s s' : S) :
  RandomHashing_init hf l k = Some rh -> Permutation qs qs' ->
  exists bf, option_map fst (hash_q_gram_set rh qs salt s) = Some bf
          /\ option_map fst (hash_q_gram_set rh qs' salt s') = Some bf
          /\ (popcount bf <= length qs * Z.to_nat k)%nat.
Proof.
  intros Hi Hp.
  destruct (hash_q_gram_set_mark hf l k rh qs salt s Hi) as [s1 E1].
  destruct (hash_q_gram_set_mark hf l k rh qs' salt s' Hi) as [s2 E2].
  assert (num_hash_funct rh = k) as Hk.
  { unfold RandomHashing_init in Hi. destruct (_ && _); [|done]. by injection Hi as <-. }
  exists (mark (replicate (Z.to_nat l) false) (flat_map (q_gram_positions rh salt) qs)).
  rewrite E1, E2. split; [done|]. split.
  - simpl. f_equal. apply mark_same_members. intros x.
    split; apply Permutation_in; [symmetry|]; by apply Permutation_flat_map.
  - unfold hash_q_gram_set in E1. apply hash_loop_popcount in E1.
    rewrite <- Hk. unfold popcount in E1 |- *.
    assert (length (List.filter (fun b : bool => b) (replicate (Z.to_nat (bf_len rh)) false)) = 0%nat)
      as Hz by (induction (Z.to_nat (bf_len rh)); simpl; auto).
    lia.
Qed.

End HashingFacts.

(** ** Dice similarity *)

Lemma popcount_cons (b : bool) (l : list bool) :
  popcount (b :: l) = ((if b then 1 else 0) + popcount l)%nat.
Proof. unfold popcount; destruct b; reflexivity. Qed.

Lemma popcount_and_le_l (a b : list bool) :
  (popcount (zip_with andb a b) <= popcount a)%nat.
Proof.
  revert b; induction a as [|x a IH]; intros [|y b]; simpl; try (unfold popcount; simpl; lia).
  rewrite !popcount_cons. specialize (IH b). destruct x, y; simpl; lia.
Qed.

Lemma popcount_and_le_r (a b : list bool) :
  (popcount (zip_with andb a b) <= popcount b)%nat.
Proof.
  revert b; induction a as [|x a IH]; intros [|y b]; simpl; try (unfold popcount; simpl; lia).
  rewrite !popcount_cons. specialize (IH b). destruct x, y; simpl; lia.
Qed.

Lemma zip_with_andb_diag (a : list bool) : zip_with andb a a = a.
Proof. induction a as [|x a IH]; simpl; [done|]. by rewrite andb_diag, IH. Qed.

Open Scope Q_scope.

(** C8 (modelled from the spec): the Dice similarity is
    [2 popcount(A AND B) / (popcount A + popcount B)], is [0] when both
    popcounts are [0], lies in [[0, 1]], and [Dice(A, A) = 1] when
    [popcount A > 0]. *)
Theorem bit_array_dice_sim_properties (a b : list bool) :
  length a = length b ->
  ((0 < popcount a + popcount b)%nat ->
     bit_array_dice_sim a b
     == inject_Z (2 * Z.of_nat (popcount (zip_with andb a b)))
        / inject_Z (Z.of_nat (popcount a + popcount b))) /\
  (popcount a = 0%nat -> popcount b = 0%nat -> bit_array_dice_sim a b == 0) /\
  (0 <= bit_array_dice_sim a b /\ bit_array_dice_sim a b <= 1) /\
  ((0 < popcount a)%nat -> bit_array_dice_sim a a == 1).
Proof.
  intros _. unfold bit_array_dice_sim.
  pose proof (popcount_and_le_l a b) as Hl. pose proof (popcount_and_le_r a b) as Hr.
  split; [|split; [|split]].
  - intros Hpos. destruct (Nat.eqb_spec (popcount a + popcount b) 0); [lia|reflexivity].
  - intros Ha Hb. rewrite Ha, Hb. reflexivity.
  - destruct (Nat.eqb_spec (popcount a + popcount b) 0) as [|Hne];
      [split; discriminate|].
    assert (0 < inject_Z (Z.of_nat (popcount a + popcount b))) as Hd
      by (unfold Qlt, inject_Z; simpl; lia).
    split.
    + apply Qle_shift_div_l; [exact Hd|].
      unfold Qle, Qmult, inject_Z; simpl; lia.
    + apply Qle_shift_div_r; [exact Hd|].
      unfold Qle, Qmult, inject_Z; simpl; lia.
  - intros Ha. rewrite zip_with_andb_diag.
    destruct (Nat.eqb_spec (popcount a + popcount a) 0) as [|_]; [lia|].
    replace (2 * Z.of_nat (popcount a))%Z with (Z.of_nat (popcount a + popcount a)) by lia.
    unfold Qdiv. apply Qmult_inv_r. unfold Qeq, inject_Z; simpl; lia.
Qed.

(** ** Classification of one query record *)

Lemma py_max_from_spec (m : Q) (l : list Q) :
  m <= py_max_from m l /\ (forall v, In v l -> v <= py_max_from m l)
  /\ (py_max_from m l = m \/ In (py_max_from m l) l).
Proof.
  revert m; induction l as [|v l IH]; intros m; simpl.
  - split; [apply Qle_refl|]. split; [done|by left].
  - set (m' := if Qle_bool v m then m else v).
    assert (m <= m' /\ v <= m') as [Hm Hv].
    { subst m'. destruct (Qle_bool v m) eqn:E.
      - apply Qle_bool_iff in E. split; [apply Qle_refl|exact E].
      - split; [|apply Qle_refl].
        apply Qlt_le_weak, Qnot_le_lt. intros Hc. apply Qle_bool_iff in Hc. congruence. }
    destruct (IH m') as (H1 & H2 & H3).
    split; [by apply (Qle_trans _ m')|]. split.
    + intros x [<-|Hx]; [by apply (Qle_trans _ m')|by apply H2].
    + destruct H3 as [->|H3]; [|by right; right].
      subst m'. destruct (Qle_bool v m); [by left|by right; left].
Qed.

Lemma py_max_spec (l : list Q) (mv : Q) :
  py_max l = Some mv -> In mv l /\ forall v, In v l -> v <= mv.
Proof.
  destruct l as [|v l]; simpl; [done|]. intros [= <-].
  destruct (py_max_from_spec v l) as (H1 & H2 & H3). split.
  - destruct H3 as [->|H3]; [by left|by right].
  - intros x [<-|Hx]; [exact H1|by apply H2].
Qed.

Lemma in_max_keys (sim_data : dict Q) (mv : Q) (k : string) :
  In k (map fst (List.filter (fun kv => Qeq_bool kv.2 mv) sim_data))
  <-> exists v, In (k, v) sim_data /\ v == mv.
Proof.
  rewrite in_map_iff. split.
  - intros ([k' v] & <- & Hin). apply filter_In in Hin as [Hin Hq].
    exists v. split; [done|]. by apply Qeq_bool_iff.
  - intros (v & Hin & Hq). exists (k, v). split; [done|].
    apply filter_In. split; [done|]. by apply Qeq_bool_iff.
Qed.

Lemma NoDup_map_fst_filter {A} (f : string * A -> bool) (l : dict A) :
  List.NoDup (map fst l) -> List.NoDup (map fst (List.filter f l)).
Proof.
  induction l as [|[k v] l IH]; simpl; [done|]. intros Hnd.
  apply NoDup_cons_iff in Hnd as [Hk Hnd].
  destruct (f (k, v)); simpl; [|by apply IH].
  constructor; [|by apply IH].
  intros Hin. apply Hk. apply in_map_iff in Hin as ([k' v'] & <- & Hin).
  apply filter_In in Hin as [Hin _]. apply in_map_iff. by exists (k', v').
Qed.

Lemma max_keys_nonempty (sim_data : dict Q) (mv : Q) :
  In mv (map snd sim_data) ->
  map fst (List.filter (fun kv => Qeq_bool kv.2 mv) sim_data) <> [].
Proof.
  intros Hin Hnil. apply in_map_iff in Hin as ([k v] & Hv & Hin). simpl in Hv.
  assert (In k (map fst (List.filter (fun kv => Qeq_bool kv.2 mv) sim_data))) as Hk.
  { apply in_max_keys. exists v. split; [done|]. rewrite Hv. apply Qeq_refl. }
  rewrite Hnil in Hk. done.
Qed.

(** C2: on a non-empty similarity map with distinct keys, the maximal
    candidates are collected with ties kept, and exactly one of the four
    counters is incremented, as the size of the maximal set and the
    membership of the query record decide. *)
Theorem record_outcome_classification (rec_id : string) (sim_data : dict Q) (c : counters) :
  List.NoDup (map fst sim_data) -> sim_data <> [] ->
  exists max_set : list string,
    List.NoDup max_set /\ (forall k, In k max_set <-> maximal sim_data k) /\
    ((max_set = [rec_id] /\ record_outcome rec_id sim_data c = Some (incr_11_correct c))
     \/ (length max_set = 1%nat /\ ~ In rec_id max_set
         /\ record_outcome rec_id sim_data c = Some (incr_11_wrong c))
     \/ ((1 < length max_set)%nat /\ In rec_id max_set
         /\ record_outcome rec_id sim_data c = Some (incr_1n_correct c))
     \/ ((1 < length max_set)%nat /\ ~ In rec_id max_set
         /\ record_outcome rec_id sim_data c = Some (incr_1n_wrong c))).
Proof.
  intros Hnd Hne.
  destruct (py_max (map snd sim_data)) as [mv|] eqn:Em;
    [|destruct sim_data; simpl in Em; congruence].
  pose proof (py_max_spec _ _ Em) as [Hin Hle].
  pose proof (max_keys_nonempty sim_data mv Hin) as Hnonempty.
  exists (map fst (List.filter (fun kv => Qeq_bool kv.2 mv) sim_data)).
  split; [by apply NoDup_map_fst_filter|]. split.
  - intros k. rewrite in_max_keys. split.
    + intros (v & Hkv & Hq). exists v. split; [done|].
      intros k' v' Hk'. rewrite Hq. apply Hle. apply in_map_iff. by exists (k', v').
    + intros (v & Hkv & Hmax). exists v. split; [done|].
      apply Qle_antisym.
      * apply Hle. apply in_map_iff. by exists (k, v).
      * apply in_map_iff in Hin as ([k' v'] & Hv' & Hin'). simpl in Hv'. subst v'.
        by apply (Hmax k').
  - unfold record_outcome. rewrite Em. simpl.
    remember (map fst (List.filter (fun kv => Qeq_bool kv.2 mv) sim_data)) as mk eqn:Hmk.
    destruct mk as [|k0 [|k1 mk']]; [done| |].
    + simpl. destruct (String.eqb_spec k0 rec_id) as [->|Hne0].
      * by left.
      * right; left. split; [done|]. split; [|done].
        intros [->|[]]. by apply Hne0.
    + cbn [length Nat.eqb Nat.ltb Nat.leb].
      destruct (existsb (String.eqb rec_id) (k0 :: k1 :: mk')) eqn:Ex.
      * right; right; left. split; [simpl; lia|]. split; [|done].
        apply existsb_exists in Ex as (x & Hx & Hq). apply String.eqb_eq in Hq. by subst x.
      * right; right; right. split; [simpl; lia|]. split; [|done].
        intros Hx. assert (existsb (String.eqb rec_id) (k0 :: k1 :: mk') = true) as Ht;
          [apply existsb_exists; exists rec_id; split; [done|apply String.eqb_refl]|congruence].
Qed.

Close Scope Q_scope.

(** ** Processing one subset *)

Lemma record_outcome_total (rec_id : string) (sim_data : dict Q) (c c' : counters) :
  record_outcome rec_id sim_data c = Some c' ->
  counters_total c' = Datatypes.S (counters_total c).
Proof.
  unfold record_outcome.
  destruct (py_max (map snd sim_data)) as [mv|] eqn:Em; simpl; [|done].
  intros [= <-].
  pose proof (py_max_spec _ _ Em) as [Hin _].
  pose proof (max_keys_nonempty sim_data mv Hin) as Hnonempty.
  remember (map fst (List.filter (fun kv => Qeq_bool kv.2 mv) sim_data)) as mk eqn:Hmk.
  destruct mk as [|k0 [|k1 mk']]; [done| |].
  - simpl. destruct (String.eqb k0 rec_id); unfold counters_total; simpl; lia.
  - cbn [length Nat.eqb Nat.ltb Nat.leb].
    destruct (existsb _ _); unfold counters_total; simpl; lia.
Qed.

Lemma record_outcome_some (rec_id : string) (sim_data : dict Q) (c : counters) :
  sim_data <> [] -> exists c', record_outcome rec_id sim_data c = Some c'.
Proof.
  intros Hne. unfold record_outcome.
  destruct sim_data as [|kv sim_data]; [done|]. simpl. eexists; reflexivity.
Qed.

Lemma compare_loop_totals (subset pool : dict rec) (co ch co' ch' : counters) :
  compare_loop subset pool co ch = Some (co', ch') ->
  counters_total co' = (counters_total co + length subset)%nat /\
  counters_total ch' = (counters_total ch + length subset)%nat.
Proof.
  revert co ch; induction subset as [|[rid r] rest IH]; intros co ch Hc; simpl in Hc.
  - injection Hc as <- <-. simpl. lia.
  - destruct (og_bf r) as [og|]; simpl in Hc; [|done].
    destruct (hd_bf r) as [hd|]; simpl in Hc; [|done].
    destruct (similarities og hd pool) as [[og_sims hd_sims]|]; simpl in Hc; [|done].
    destruct (record_outcome rid og_sims co) as [co1|] eqn:E1; simpl in Hc; [|done].
    destruct (record_outcome rid hd_sims ch) as [ch1|] eqn:E2; simpl in Hc; [|done].
    apply record_outcome_total in E1. apply record_outcome_total in E2.
    destruct (IH co1 ch1 Hc) as [H1 H2]. simpl. lia.
Qed.

Lemma harden_pass_spec `{PyRandom St} (b : BLIP) (d : dict rec) (s : St) :
  Forall (fun kv => og_bf kv.2 <> None) d ->
  exists d' s', harden_pass b d s = Some (d', s') /\ length d' = length d /\
    Forall (fun kv => og_bf kv.2 <> None /\ hd_bf kv.2 <> None) d'.
Proof.
  revert s; induction d as [|[rid r] d IH]; intros s Hf; simpl.
  - by exists [], s.
  - inversion Hf as [|? ? Hr Hd]; subst. simpl in Hr.
    destruct (og_bf r) as [og|] eqn:Eog; [|done]. simpl.
    destruct (harden_bf b og s) as [blip s1].
    destruct (IH s1 Hd) as (d' & s' & -> & Hlen & Hf'). simpl.
    exists ((rid, set_hd_bf r blip) :: d'), s'. split; [done|]. split; [simpl; lia|].
    constructor; [|done]. simpl. rewrite Eog. done.
Qed.

Lemma harden_pass_length `{PyRandom St} (b : BLIP) (d d' : dict rec) (s s' : St) :
  harden_pass b d s = Some (d', s') -> length d' = length d.
Proof.
  revert s d'; induction d as [|[rid r] d IH]; intros s d' Hp; simpl in Hp.
  - by injection Hp as <- <-.
  - destruct (og_bf r) as [og|]; simpl in Hp; [|done].
    destruct (harden_bf b og s) as [blip s1].
    destruct (harden_pass b d s1) as [[d1 s2]|] eqn:E; simpl in Hp; [|done].
    injection Hp as <- <-. simpl. by rewrite (IH s1 d1 E).
Qed.

Lemma similarities_spec (og hd : list bool) (pool : dict rec) :
  Forall (fun kv => og_bf kv.2 <> None /\ hd_bf kv.2 <> None) pool ->
  exists og_sims hd_sims, similarities og hd pool = Some (og_sims, hd_sims) /\
    length og_sims = length pool /\ length hd_sims = length pool.
Proof.
  induction pool as [|[cid c] pool IH]; intros Hf; simpl.
  - by exists [], [].
  - inversion Hf as [|? ? [Ho Hh] Hp]; subst. simpl in Ho, Hh.
    destruct (og_bf c) as [c_og|]; [|done]. destruct (hd_bf c) as [c_hd|]; [|done].
    simpl. destruct (IH Hp) as (os & hs & -> & H1 & H2). simpl.
    eexists _, _. split; [reflexivity|]. simpl. lia.
Qed.

Lemma compare_loop_some (subset pool : dict rec) (co ch : counters) :
  Forall (fun kv => og_bf kv.2 <> None /\ hd_bf kv.2 <> None) subset ->
  Forall (fun kv => og_bf kv.2 <> None /\ hd_bf kv.2 <> None) pool ->
  (subset = [] \/ pool <> []) ->
  exists co' ch', compare_loop subset pool co ch = Some (co', ch').
Proof.
  intros Hs Hp Hne. revert co ch; induction subset as [|[rid r] rest IH]; intros co ch; simpl.
  - by exists co, ch.
  - destruct Hne as [|Hne]; [done|].
    inversion Hs as [|? ? [Ho Hh] Hrest]; subst. simpl in Ho, Hh.
    destruct (og_bf r) as [og|]; [|done]. destruct (hd_bf r) as [hd|]; [|done]. simpl.
    destruct (similarities_spec og hd pool Hp) as (os & hs & -> & H1 & H2). simpl.
    assert (os <> []) as Hos by (intros ->; destruct pool; simpl in H1; [done|lia]).
    assert (hs <> []) as Hhs by (intros ->; destruct pool; simpl in H2; [done|lia]).
    destruct (record_outcome_some rid os co Hos) as [co1 ->]. simpl.
    destruct (record_outcome_some rid hs ch Hhs) as [ch1 ->]. simpl.
    apply IH; [exact Hrest|by right].
Qed.

Lemma counters0_total : counters_total counters0 = 0%nat.
Proof. reflexivity. Qed.

Section SubsetFacts.
Context {S : Type} `{PyRandom S}.

(** C3: when a subset has been processed, the four counters of each
    variant add up to the number of records of the subset. *)
Theorem process_subset_counter_totals (sel : sel_method) (p : Q) (base subset : dict rec)
    (base_sample_size : Z) (s : S) (co ch : counters) (s' : S) :
  process_subset sel p base subset base_sample_size s = Some (co, ch, s') ->
  counters_total co = length subset /\ counters_total ch = length subset.
Proof.
  unfold process_subset. destruct (comparison_pool base subset s) as [pool s1].
  destruct (BLIP_init sel p (Some 42)) as [hd1|]; simpl; [|done].
  destruct (harden_pass hd1 subset s1) as [[subset' s2]|] eqn:E1; simpl; [|done].
  destruct (harden_pass hd1 pool s2) as [[pool' s3]|] eqn:E2; simpl; [|done].
  destruct (pool_size_ok pool' base subset' base_sample_size); [|done].
  destruct (compare_loop subset' pool' counters0 counters0) as [[co0 ch0]|] eqn:E3;
    simpl; [|done].
  intros [= -> -> ->].
  apply compare_loop_totals in E3. apply harden_pass_length in E1.
  rewrite counters0_total in E3. lia.
Qed.

End SubsetFacts.

(** ** Dicts and the comparison pool *)

Lemma dict_set_keys {A} (d : dict A) (k : string) (v : A) (x : string) :
  In x (map fst (dict_set d k v)) -> x = k \/ In x (map fst d).
Proof.
  induction d as [|[k' v'] d IH]; simpl.
  - intros [<-|[]]. by left.
  - destruct (String.eqb_spec k k') as [->|Hne]; simpl.
    + intros [<-|Hx]; [by left|by right; right].
    + intros [<-|Hx]; [by right; left|]. destruct (IH Hx) as [->|Hin]; [by left|by right; right].
Qed.

Lemma dict_set_nodup {A} (d : dict A) (k : string) (v : A) :
  List.NoDup (map fst d) -> List.NoDup (map fst (dict_set d k v)).
Proof.
  induction d as [|[k' v'] d IH]; simpl; intros Hnd.
  - constructor; [intros []|constructor].
  - apply NoDup_cons_iff in Hnd as [Hk Hnd].
    destruct (String.eqb_spec k k') as [->|Hne]; simpl.
    + by constructor.
    + constructor; [|by apply IH].
      intros Hin. destruct (dict_set_keys d k v k' Hin) as [->|Hin']; [done|by apply Hk].
Qed.

Lemma dict_set_forall {A} (P : string * A -> Prop) (d : dict A) (k : string) (v : A) :
  Forall P d -> P (k, v) -> Forall P (dict_set d k v).
Proof.
  induction d as [|[k' v'] d IH]; simpl; intros Hd Hkv.
  - by constructor.
  - inversion Hd as [|? ? Hh Ht]; subst.
    destruct (String.eqb k k'); constructor; auto.
Qed.

Lemma dict_set_fresh {A} (d : dict A) (k : string) (v : A) :
  ~ In k (map fst d) -> dict_set d k v = d ++ [(k, v)].
Proof.
  induction d as [|[k' v'] d IH]; simpl; intros Hk; [done|].
  destruct (String.eqb_spec k k') as [->|Hne]; [exfalso; by apply Hk; left|].
  rewrite IH; [done|]. intros Hin; apply Hk; by right.
Qed.

Lemma fold_dict_set_nodup {A} (items acc : dict A) :
  List.NoDup (map fst acc) ->
  List.NoDup (map fst (fold_left (fun d kv => dict_set d kv.1 kv.2) items acc)).
Proof.
  revert acc; induction items as [|[k v] items IH]; intros acc Hacc; simpl; [done|].
  apply IH. by apply dict_set_nodup.
Qed.

Lemma fold_dict_set_forall {A} (P : string * A -> Prop) (items acc : dict A) :
  Forall P acc -> Forall P items ->
  Forall P (fold_left (fun d kv => dict_set d kv.1 kv.2) items acc).
Proof.
  revert acc; induction items as [|[k v] items IH]; intros acc Hacc Hit; simpl; [done|].
  inversion Hit as [|? ? Hh Ht]; subst.
  apply IH; [|done]. by apply dict_set_forall.
Qed.

Lemma fold_dict_set_fresh {A} (items acc : dict A) :
  List.NoDup (map fst (acc ++ items)) ->
  fold_left (fun d kv => dict_set d kv.1 kv.2) items acc = acc ++ items.
Proof.
  revert acc; induction items as [|[k v] items IH]; intros acc Hnd; simpl.
  - by rewrite app_nil_r.
  - assert (List.NoDup (map fst ((acc ++ [(k, v)]) ++ items))) as Hnd'.
    { by rewrite <- (List.app_assoc acc [(k, v)] items). }
    rewrite map_app in Hnd. simpl in Hnd.
    apply NoDup_remove in Hnd as [_ Hk].
    rewrite dict_set_fresh by (intros Hin; apply Hk, in_or_app; by left).
    rewrite (IH _ Hnd'). by rewrite <- (List.app_assoc acc [(k, v)] items).
Qed.

Lemma dict_of_items_id {A} (items : dict A) :
  List.NoDup (map fst items) -> dict_of_items items = items.
Proof. intros Hnd. unfold dict_of_items. by rewrite fold_dict_set_fresh. Qed.

Lemma dict_merge_nodup {A} (d1 d2 : dict A) : List.NoDup (map fst (dict_merge d1 d2)).
Proof. apply fold_dict_set_nodup. constructor. Qed.

Lemma list_swap_perm {A} (x : list A) (i j : nat) : list_swap x i j ≡ₚ x.
Proof.
  unfold list_swap.
  destruct (x !! i) as [xi|] eqn:Ei, (x !! j) as [xj|] eqn:Ej; try done.
  by apply Permutation_insert_swap.
Qed.

Lemma shuffle_from_perm `{PyRandom St} {A} (i : nat) (x : list A) (s : St) :
  (shuffle_from i x s).1 ≡ₚ x.
Proof.
  revert x s; induction i as [|i IH]; intros x s; simpl; [done|].
  destruct (randbelow _ s) as [j s1].
  by rewrite IH, list_swap_perm.
Qed.

Lemma comparison_pool_spec `{PyRandom St} (base subset : dict rec) (s : St) :
  length (comparison_pool base subset s).1 = length (dict_merge base subset) /\
  (Forall (fun kv => og_bf kv.2 <> None) (base ++ subset) ->
   Forall (fun kv => og_bf kv.2 <> None) (comparison_pool base subset s).1).
Proof.
  unfold comparison_pool, random_shuffle.
  pose proof (shuffle_from_perm (length (dict_merge base subset) - 1)
                (dict_merge base subset) s) as Hp.
  destruct (shuffle_from _ (dict_merge base subset) s) as [l s1]; simpl in *.
  assert (List.NoDup (map fst l)) as Hnd.
  { apply (Permutation_NoDup (l := map fst (dict_merge base subset))).
    - apply Permutation_map. by symmetry.
    - apply dict_merge_nodup. }
  rewrite dict_of_items_id by done. split.
  - by apply Permutation_length.
  - intros Hf. assert (Forall (fun kv => og_bf kv.2 <> None) (dict_merge base subset)) as Hm
      by (apply fold_dict_set_forall; [constructor|done]).
    by rewrite Hp.
Qed.

Lemma BLIP_init_some (sel : sel_method) (p : Q) (rseed : option Z) :
  (0 <= p <= 1)%Q -> BLIP_init sel p rseed = Some (mk_BLIP_rec sel p rseed).
Proof.
  unfold BLIP_init. intros [H0 H1].
  apply Qle_bool_iff in H0. apply Qle_bool_iff in H1. by rewrite H0, H1.
Qed.

Section SizeCheck.
Context {S : Type} `{PyRandom S}.

(** C9 (amended): given a valid flip probability and records that all
    carry an original Bloom filter, processing a subset aborts exactly
    when the chained size check fails: the merged pool [{**base,
    **subset}] must have [|S| + |B|] records and [|S| + |B|] must equal
    [base_sample_size + 1000]. *)
Theorem process_subset_size_check (sel : sel_method) (p : Q) (base subset : dict rec)
    (base_sample_size : Z) (s : S) :
  (0 <= p <= 1)%Q ->
  Forall (fun kv => og_bf kv.2 <> None) (base ++ subset) ->
  (process_subset sel p base subset base_sample_size s = None <->
   ~ (length (dict_merge base subset) = (length subset + length base)%nat
      /\ Z.of_nat (length subset + length base) = base_sample_size + 1000)).
Proof.
  intros Hp Hf. unfold process_subset.
  pose proof (comparison_pool_spec base subset s) as [Hlen Hpool].
  destruct (comparison_pool base subset s) as [pool s1]; simpl in Hlen, Hpool.
  specialize (Hpool Hf).
  rewrite BLIP_init_some by done. simpl.
  apply Forall_app in Hf as [_ Hfs].
  destruct (harden_pass_spec (mk_BLIP_rec sel p (Some 42)) subset s1 Hfs)
    as (subset' & s2 & -> & Hl1 & Hf1). simpl.
  destruct (harden_pass_spec (mk_BLIP_rec sel p (Some 42)) pool s2 Hpool)
    as (pool' & s3 & -> & Hl2 & Hf2). simpl.
  unfold pool_size_ok. rewrite Hl1, Hl2, Hlen.
  destruct (Nat.eqb_spec (length (dict_merge base subset)) (length subset + length base)) as [E1|E1];
    destruct (Z.eqb_spec (Z.of_nat (length subset + length base)) (base_sample_size + 1000))
      as [E2|E2]; simpl.
  - destruct (compare_loop_some subset' pool' counters0 counters0 Hf1 Hf2) as (co & ch & ->).
    { destruct subset' as [|x l]; [by left|right]. intros ->. simpl in Hl1, Hl2. lia. }
    simpl. split; [discriminate|]. intros Hn. exfalso. by apply Hn.
  - split; [|done]. intros _ [_ ?]. contradiction.
  - split; [|done]. intros _ [? _]. contradiction.
  - split; [|done]. intros _ [? _]. contradiction.
Qed.

End SizeCheck.

(** ** Hardening: further properties *)

Section HardeningMore.
Context {S : Type} `{PyRandom S}.

(** X1: with 'ala', [harden_bf] complements exactly the positions whose
    [random.random()] draw is at most [p] (the [i]-th draw deciding the
    [i]-th bit) and makes no other call to the generator. *)
Theorem harden_bf_ala_flip_mask (p : Q) (rseed : option Z) (bf : list bool) (s : S) :
  harden_bf (mk_BLIP_rec ala p rseed) bf s
  = (zip_with xorb bf (map (fun u => Qle_bool u p) (first_draws (length bf) s)),
     skip_draws (length bf) s).
Proof.
  revert s; induction bf as [|bit rest IH]; intros s; simpl; [done|].
  unfold harden_bit; simpl.
  destruct (random_random s) as [rand s1]; simpl.
  destruct (Qle_bool rand p), bit; simpl; rewrite (IH s1); reflexivity.
Qed.

(** X3: whatever the selection method, if every [random.random()] draw
    of the call is greater than [p], no bit is selected: [harden_bf]
    returns [bf] and makes one draw per bit. *)
Theorem harden_bf_unselected_identity (sel : sel_method) (p : Q) (rseed : option Z)
    (bf : list bool) (s : S) :
  Forall (fun u => (p < u)%Q) (first_draws (length bf) s) ->
  harden_bf (mk_BLIP_rec sel p rseed) bf s = (bf, skip_draws (length bf) s).
Proof.
  revert s; induction bf as [|bit rest IH]; intros s Hpos; simpl in *; [done|].
  unfold harden_bit; simpl.
  destruct (random_random s) as [rand s1]; simpl in *.
  inversion Hpos as [|? ? Hu Hrest]; subst.
  assert (Qle_bool rand p = false) as ->.
  { destruct (Qle_bool rand p) eqn:E; [|done].
    apply Qle_bool_iff in E. exfalso. apply (Qlt_not_le _ _ Hu E). }
  rewrite (IH s1 Hrest). done.
Qed.

End HardeningMore.

Section HardeningSchOne.
Context {S : Type} `{PyRandom S}.

Hypothesis random_bits_range : forall s, 0 <= fst (random_bits s) < Zpos two_53.

(** X2: with 'sch' and [p = 1] every bit is replaced by
    [random.choice([0, 1])]: the hardened Bloom filter and the state left
    behind do not depend on the bits of the input, only on its length. *)
Theorem harden_bf_sch_one_ignores_bits (rseed : option Z) (bf1 bf2 : list bool) (s : S) :
  length bf1 = length bf2 ->
  harden_bf (mk_BLIP_rec sch 1 rseed) bf1 s = harden_bf (mk_BLIP_rec sch 1 rseed) bf2 s.
Proof.
  revert bf2 s; induction bf1 as [|b1 rest1 IH]; intros [|b2 rest2] s Hl;
    simpl in Hl; try done.
  simpl. unfold harden_bit; simpl.
  pose proof (random_random_le_1 random_bits_range s) as Hle.
  destruct (random_random s) as [rand s1]; simpl in *. rewrite Hle.
  destruct (random_choice [0; 1] s1) as [bv s2].
  rewrite (IH rest2 s2) by lia. reflexivity.
Qed.

End HardeningSchOne.

(** ** Random hashing: further properties *)

Lemma lookup_mark (bf : list bool) (P : list Z) (i : nat) :
  mark bf P !! i = (fun b => b || existsb (Z.eqb (Z.of_nat i)) P) <$> bf !! i.
Proof. unfold mark. by rewrite list_lookup_imap. Qed.

Lemma popcount_lookup_true (bf : list bool) (i : nat) :
  bf !! i = Some true -> (0 < popcount bf)%nat.
Proof.
  revert i; induction bf as [|b bf IH]; intros [|i] Hi; simpl in Hi; try done.
  - injection Hi as ->. rewrite popcount_cons. lia.
  - rewrite popcount_cons. specialize (IH i Hi). lia.
Qed.

Lemma mark_app (bf : list bool) (P1 P2 : list Z) :
  mark bf (P1 ++ P2) = zip_with orb (mark bf P1) (mark bf P2).
Proof.
  apply list_eq; intros i. rewrite lookup_zip_with, !lookup_mark.
  destruct (bf !! i) as [b|]; simpl; [|done].
  rewrite existsb_app. f_equal. destruct b; simpl; [done|].
  reflexivity.
Qed.

Lemma mark_lookup_true (bf : list bool) (P : list Z) (i : nat) :
  mark bf P !! i = Some true <->
  exists b, bf !! i = Some b /\ (b = true \/ In (Z.of_nat i) P).
Proof.
  rewrite lookup_mark. destruct (bf !! i) as [b|]; simpl.
  - split.
    + intros [= Hb]. exists b. split; [done|].
      apply orb_true_iff in Hb as [Hb|Hb]; [by left|right].
      apply existsb_exists in Hb as (x & Hx & Hq). apply Z.eqb_eq in Hq. by subst x.
    + intros (b' & [= <-] & Hb). f_equal. apply orb_true_iff.
      destruct Hb as [Hb|Hb]; [by left|right].
      apply existsb_exists. exists (Z.of_nat i). split; [done|apply Z.eqb_refl].
  - split; [done|]. intros (b & ? & _). done.
Qed.

Lemma replicate_lookup_false (n i : nat) (b : bool) :
  replicate n false !! i = Some b -> b = false /\ (i < n)%nat.
Proof.
  intros Hi. apply lookup_replicate in Hi as [-> Hlt]. done.
Qed.

Lemma flat_map_same_members {A B} (f : A -> list B) (l1 l2 : list A) :
  (forall x, In x l1 <-> In x l2) ->
  forall y, In y (flat_map f l1) <-> In y (flat_map f l2).
Proof.
  intros Hm y. rewrite !in_flat_map. split; intros (x & Hx & Hy); exists x; split; try done;
    by apply Hm.
Qed.

Section HashingMore.
Context {S : Type} `{PyRandom S}.

Hypothesis randbelow_range : forall n s, 0 < n -> 0 <= fst (randbelow n s) < n.

Lemma randint_draws_range n hi (s : S) :
  0 <= hi -> Forall (fun x => 0 <= x <= hi) (randint_draws n hi s).
Proof.
  intros Hhi. revert s; induction n as [|n IH]; intros s; simpl; [constructor|].
  pose proof (randint_range randbelow_range hi s Hhi) as Hr.
  destruct (random_randint 0 hi s) as [p s']; simpl in *. constructor; [done|apply IH].
Qed.

Lemma RandomHashing_init_inv hf l k rh :
  RandomHashing_init hf l k = Some rh -> rh = mk_RH_rec hf l k /\ 1 < l /\ 0 < k.
Proof.
  unfold RandomHashing_init. destruct ((1 <? l) && (0 <? k)) eqn:E; [|done].
  intros [= <-]. apply andb_prop in E as [E1 E2].
  apply Z.ltb_lt in E1. apply Z.ltb_lt in E2. done.
Qed.

Lemma q_gram_positions_range hf l k salt q :
  1 < l -> Forall (fun x => 0 <= x < l) (q_gram_positions (S:=S) (mk_RH_rec hf l k) salt q).
Proof.
  intros Hl. unfold q_gram_positions; simpl.
  eapply Forall_impl; [apply randint_draws_range; lia|]. simpl. lia.
Qed.

(** X4: with parameters [RandomHashing.__init__] accepts,
    [hash_q_gram_set] never raises; it returns a Bloom filter of exactly
    [bf_len] bits, which has at least one 1-bit when the q-gram set is not
    empty (the two checks of the module's self-test). *)
Theorem hash_q_gram_set_shape hf l k rh (qs : list string) (salt : option string) (s : S) :
  RandomHashing_init hf l k = Some rh ->
  exists bf s', hash_q_gram_set rh qs salt s = Some (bf, s') /\
    length bf = Z.to_nat l /\ (qs <> [] -> (0 < popcount bf)%nat).
Proof.
  intros Hi.
  destruct (hash_q_gram_set_mark randbelow_range hf l k rh qs salt s Hi) as [s' E].
  apply RandomHashing_init_inv in Hi as (-> & Hl & Hk).
  eexists _, s'. split; [exact E|]. split.
  - by rewrite length_mark, length_replicate.
  - intros Hne. destruct qs as [|q qs]; [done|]. simpl.
    pose proof (q_gram_positions_range hf l k salt q Hl) as Hr.
    unfold q_gram_positions in *; simpl in *.
    destruct (Z.to_nat k) as [|n] eqn:Ek; [lia|]. simpl in *.
    destruct (random_randint 0 (l - 1) (seed (hf (salted q salt))))
      as [p0 s0]; simpl in *.
    inversion Hr as [|? ? Hp0 _]; subst.
    apply (popcount_lookup_true _ (Z.to_nat p0)).
    apply mark_lookup_true. exists false. split.
    + apply lookup_replicate. split; [done|lia].
    + right. rewrite Z2Nat.id by lia. by left.
Qed.

(** X5: the Bloom filter of the concatenation of two q-gram sequences is
    the bitwise OR of their Bloom filters, whatever the states of the
    generator at the three calls. *)
Theorem hash_q_gram_set_union hf l k rh (qs1 qs2 : list string) (salt : option string)
    (s1 s2 s3 : S) :
  RandomHashing_init hf l k = Some rh ->
  exists bf1 bf2 s1' s2' s3',
    hash_q_gram_set rh qs1 salt s1 = Some (bf1, s1') /\
    hash_q_gram_set rh qs2 salt s2 = Some (bf2, s2') /\
    hash_q_gram_set rh (qs1 ++ qs2) salt s3 = Some (zip_with orb bf1 bf2, s3').
Proof.
  intros Hi.
  destruct (hash_q_gram_set_mark randbelow_range hf l k rh qs1 salt s1 Hi) as [s1' E1].
  destruct (hash_q_gram_set_mark randbelow_range hf l k rh qs2 salt s2 Hi) as [s2' E2].
  destruct (hash_q_gram_set_mark randbelow_range hf l k rh (qs1 ++ qs2) salt s3 Hi) as [s3' E3].
  do 5 eexists. split; [exact E1|]. split; [exact E2|].
  rewrite E3, flat_map_app, mark_app. reflexivity.
Qed.

End HashingMore.

(** ** Random hashing with the position dictionary *)

Lemma set_add_in (ps : list Z) (x y : Z) : In y (set_add ps x) <-> In y ps \/ y = x.
Proof.
  unfold set_add. destruct (existsb (Z.eqb x) ps) eqn:E.
  - apply existsb_exists in E as (z & Hz & Hq). apply Z.eqb_eq in Hq. subst z.
    split; [by left|]. intros [Hy| ->]; done.
  - rewrite in_app_iff. simpl. split; intros [Hy|Hy]; try by left.
    + destruct Hy as [<-|[]]. by right.
    + right. by left.
Qed.

Lemma set_add_nodup (ps : list Z) (x : Z) : List.NoDup ps -> List.NoDup (set_add ps x).
Proof.
  unfold set_add. intros Hnd. destruct (existsb (Z.eqb x) ps) eqn:E; [done|].
  apply (Permutation_NoDup (Permutation_cons_append ps x)). constructor; [|done].
  intros Hy.
  assert (existsb (Z.eqb x) ps = true) as Ht
    by (apply existsb_exists; exists x; split; [done|apply Z.eqb_refl]).
  congruence.
Qed.

Lemma set_add_length (ps : list Z) (x : Z) : (length (set_add ps x) <= Datatypes.S (length ps))%nat.
Proof. unfold set_add. destruct (existsb _ _); [lia|]. rewrite length_app. simpl. lia. Qed.

Lemma fold_set_add_in (L ps : list Z) (y : Z) :
  In y (fold_left set_add L ps) <-> In y ps \/ In y L.
Proof.
  revert ps; induction L as [|x L IH]; intros ps; simpl.
  - split; [by left|]. by intros [?|[]].
  - rewrite IH, set_add_in. split.
    + intros [[Hy| ->]|Hy]; [by left|by right; left|by right; right].
    + intros [Hy|[->|Hy]]; [by left; left|by left; right|by right].
Qed.

Lemma fold_set_add_nodup (L ps : list Z) :
  List.NoDup ps -> List.NoDup (fold_left set_add L ps).
Proof.
  revert ps; induction L as [|x L IH]; intros ps Hnd; simpl; [done|].
  apply IH. by apply set_add_nodup.
Qed.

Lemma fold_set_add_length (L ps : list Z) :
  (length (fold_left set_add L ps) <= length ps + length L)%nat.
Proof.
  revert ps; induction L as [|x L IH]; intros ps; simpl; [lia|].
  specialize (IH (set_add ps x)). pose proof (set_add_length ps x). lia.
Qed.

Lemma dict_set_in {A} (d : dict A) (k : string) (v : A) (k' : string) (v' : A) :
  In (k', v') (dict_set d k v) -> (k' = k /\ v' = v) \/ In (k', v') d.
Proof.
  induction d as [|[k0 v0] d IH]; simpl.
  - intros [[= <- <-]|[]]. by left.
  - destruct (String.eqb k k0); simpl.
    + intros [[= <- <-]|Hin]; [by left|by right; right].
    + intros [<-|Hin]; [by right; left|]. destruct (IH Hin) as [?|?]; [by left|by right; right].
Qed.

Lemma dict_set_keys_iff {A} (d : dict A) (k : string) (v : A) (x : string) :
  In x (map fst (dict_set d k v)) <-> x = k \/ In x (map fst d).
Proof.
  split; [apply dict_set_keys|].
  induction d as [|[k0 v0] d IH]; simpl.
  - intros [->|[]]. by left.
  - destruct (String.eqb_spec k k0) as [->|Hne]; simpl.
    + intros [->|[->|Hx]]; [by left|by left|by right].
    + intros [->|[->|Hx]]; [right; apply IH; by left|by left|right; apply IH; by right].
Qed.

Lemma fold_dict_set_key_fun {A} (key : string -> string) (f : string -> A)
    (qs : list string) (pd : dict A) :
  List.NoDup (map fst pd) -> (forall k v, In (k, v) pd -> v = f k) ->
  let r := fold_left (fun d q => dict_set d (key q) (f (key q))) qs pd in
  List.NoDup (map fst r) /\
  (forall k, In k (map fst r) <-> In k (map fst pd) \/ In k (map key qs)) /\
  (forall k v, In (k, v) r -> v = f k).
Proof.
  revert pd; induction qs as [|q qs IH]; intros pd Hnd Hv; simpl.
  - split; [done|]. split; [|done]. intros k. split; [by left|]. by intros [?|[]].
  - destruct (IH (dict_set pd (key q) (f (key q)))) as (H1 & H2 & H3).
    + by apply dict_set_nodup.
    + intros k v Hin. apply dict_set_in in Hin as [[-> ->]|Hin]; [done|by apply Hv].
    + split; [done|]. split; [|done].
      intros k. rewrite H2, dict_set_keys_iff. simpl. split.
      * intros [[->|Hk]|Hk]; [by right; left|by left|by right; right].
      * intros [Hk|[->|Hk]]; [by left; right|by left; left|by right].
Qed.

Lemma string_length_app (a c : string) :
  String.length (a ++ c) = (String.length a + String.length c)%nat.
Proof. induction a as [|x a IH]; simpl; [done|]. by rewrite IH. Qed.

Lemma string_app_inj_r (a b c : string) : (a ++ c = b ++ c)%string -> a = b.
Proof.
  revert b; induction a as [|x a IH]; intros [|y b] E; simpl in E.
  - done.
  - exfalso. assert (String.length c = String.length (String y (b ++ c))) as Hl by (by rewrite <- E).
    simpl in Hl. rewrite string_length_app in Hl. lia.
  - exfalso. assert (String.length (String x (a ++ c)) = String.length c) as Hl by (by rewrite E).
    simpl in Hl. rewrite string_length_app in Hl. lia.
  - injection E as -> E. by rewrite (IH b E).
Qed.

Lemma salted_inj (q1 q2 : string) (salt : option string) :
  salted q1 salt = salted q2 salt -> q1 = q2.
Proof. destruct salt as [salt|]; simpl; [apply string_app_inj_r|done]. Qed.

Section HashingPosFacts.
Context {S : Type} `{PyRandom S}.

Lemma draw_and_set_pos_spec n hi (bf : list bool) (ps : list Z) (s : S) :
  draw_and_set_pos n hi bf ps s
  = option_map (fun r => (r.1, fold_left set_add (randint_draws n hi s) ps, r.2))
      (draw_and_set n hi bf s).
Proof.
  revert bf ps s; induction n as [|n IH]; intros bf ps s; simpl; [done|].
  destruct (random_randint 0 hi s) as [pos s1]; simpl.
  destruct (bf_set bf pos) as [bf1|]; simpl; [apply IH|done].
Qed.

Lemma hash_loop_pos_spec rh salt (qs : list string) (bf : list bool) (pd : dict (list Z)) (s : S) :
  hash_loop_pos rh salt qs bf pd s
  = option_map (fun r => (r.1, fold_left (fun d q => dict_set d (salted q salt)
                                   (fold_left set_add (q_gram_positions rh salt q) [])) qs pd, r.2))
      (hash_loop rh salt qs bf s).
Proof.
  revert bf pd s; induction qs as [|q qs IH]; intros bf pd s; simpl; [done|].
  rewrite draw_and_set_pos_spec.
  destruct (draw_and_set _ _ bf _) as [[bf1 s2]|]; simpl; [apply IH|done].
Qed.

(** X7: setting [get_q_gram_pos] does not change the Bloom filter, the
    state the call leaves in the global generator, or when the call
    raises. *)
Theorem hash_q_gram_set_pos_filter rh (qs : list string) (salt : option string) (s : S) :
  option_map (fun r => (r.1.1, r.2)) (hash_q_gram_set_pos rh qs salt s)
  = hash_q_gram_set rh qs salt s.
Proof.
  unfold hash_q_gram_set_pos, hash_q_gram_set. rewrite hash_loop_pos_spec.
  by destruct (hash_loop _ _ _ _ _) as [[bf s']|].
Qed.

Hypothesis randbelow_range : forall n s, 0 < n -> 0 <= fst (randbelow n s) < n.

Lemma hash_q_gram_set_pos_mark hf l k rh (qs : list string) (salt : option string) (s : S) :
  RandomHashing_init hf l k = Some rh ->
  exists s', hash_q_gram_set_pos rh qs salt s
    = Some (mark (replicate (Z.to_nat l) false) (flat_map (q_gram_positions rh salt) qs),
            fold_left (fun d q => dict_set d (salted q salt)
                         (fold_left set_add (q_gram_positions rh None (salted q salt)) [])) qs [],
            s').
Proof.
  intros Hi. destruct (hash_q_gram_set_mark randbelow_range hf l k rh qs salt s Hi) as [s' E].
  exists s'. unfold hash_q_gram_set_pos. rewrite hash_loop_pos_spec.
  unfold hash_q_gram_set in E. rewrite E. reflexivity.
Qed.

Lemma pos_dict_props rh (qs : list string) (salt : option string) :
  let pd := fold_left (fun d q => dict_set d (salted q salt)
               (fold_left set_add (q_gram_positions (S:=S) rh None (salted q salt)) [])) qs [] in
  List.NoDup (map fst pd) /\
  (forall key, In key (map fst pd) <-> In key (map (fun q => salted q salt) qs)) /\
  (forall key ps, In (key, ps) pd -> ps = fold_left set_add (q_gram_positions rh None key) []).
Proof.
  destruct (fold_dict_set_key_fun (fun q => salted q salt)
              (fun key => fold_left set_add (q_gram_positions (S:=S) rh None key) []) qs []
              ltac:(constructor) ltac:(intros ? ? [])) as (H1 & H2 & H3).
  simpl. split; [exact H1|]. split; [|exact H3].
  intros key. rewrite H2. simpl. split; [by intros [[]|?]|by right].
Qed.

(** X8: with [get_q_gram_pos] set, the keys of [q_gram_pos_dict] are
    exactly the q-grams after salting ([q_gram + salt_str], not the
    q-grams themselves when a salt is given), each once; a q-gram set
    without repetitions gives one key per q-gram. *)
Theorem hash_q_gram_set_pos_keys hf l k rh (qs : list string) (salt : option string) (s : S) :
  RandomHashing_init hf l k = Some rh ->
  exists bf pd s', hash_q_gram_set_pos rh qs salt s = Some (bf, pd, s') /\
    List.NoDup (map fst pd) /\
    (forall key, In key (map fst pd) <-> In key (map (fun q => salted q salt) qs)) /\
    (List.NoDup qs -> length pd = length qs).
Proof.
  intros Hi. destruct (hash_q_gram_set_pos_mark hf l k rh qs salt s Hi) as [s' E].
  destruct (pos_dict_props rh qs salt) as (H1 & H2 & _).
  do 3 eexists. split; [exact E|]. split; [exact H1|]. split; [exact H2|].
  intros Hnd. rewrite <- (length_map fst), <- (length_map (fun q => salted q salt) qs).
  apply Permutation_length, Stdlib.Sorting.Permutation.NoDup_Permutation; [exact H1| |exact H2].
  apply Finite.Injective_map_NoDup; [|exact Hnd].
  intros q1 q2. apply salted_inj.
Qed.

(** X9: every position set of [q_gram_pos_dict] is a non-empty set of at
    most [num_hash_funct] positions, all in [[0, bf_len)]: the positions
    [randint] draws after seeding the generator with the digest of its
    key. *)
Theorem hash_q_gram_set_pos_sets hf l k rh (qs : list string) (salt : option string) (s : S) :
  RandomHashing_init hf l k = Some rh ->
  exists bf pd s', hash_q_gram_set_pos rh qs salt s = Some (bf, pd, s') /\
    forall key ps, In (key, ps) pd ->
      List.NoDup ps /\ (0 < length ps <= Z.to_nat k)%nat /\ Forall (fun x => 0 <= x < l) ps /\
      (forall x, In x ps <-> In x (q_gram_positions rh None key)).
Proof.
  intros Hi. destruct (hash_q_gram_set_pos_mark hf l k rh qs salt s Hi) as [s' E].
  destruct (pos_dict_props rh qs salt) as (_ & _ & H3).
  do 3 eexists. split; [exact E|]. intros key ps Hin. rewrite (H3 key ps Hin).
  apply RandomHashing_init_inv in Hi as (-> & Hl & Hk).
  assert (forall x, In x (fold_left set_add (q_gram_positions (mk_RH_rec hf l k) None key) [])
                    <-> In x (q_gram_positions (mk_RH_rec hf l k) None key)) as Hm.
  { intros x. rewrite fold_set_add_in. simpl. split; [by intros [[]|?]|by right]. }
  pose proof (q_gram_positions_range randbelow_range hf l k None key Hl) as Hr.
  split; [apply fold_set_add_nodup; constructor|]. split; [split|split].
  - assert (length (q_gram_positions (S:=S) (mk_RH_rec hf l k) None key) = Z.to_nat k) as Hpl
      by (unfold q_gram_positions; apply length_randint_draws).
    destruct (q_gram_positions (mk_RH_rec hf l k) None key) as [|y ys]; simpl in Hpl; [lia|].
    assert (In y (fold_left set_add (y :: ys) [])) as Hy by (apply Hm; by left).
    destruct (fold_left set_add (y :: ys) []); simpl in *; [done|lia].
  - pose proof (fold_set_add_length (q_gram_positions (mk_RH_rec hf l k) None key) []) as Hlen.
    unfold q_gram_positions in Hlen |- *. rewrite length_randint_draws in Hlen. simpl in *. lia.
  - rewrite List.Forall_forall in Hr |- *. intros x Hx. apply Hr, (proj1 (Hm x)), Hx.
  - exact Hm.
Qed.

(** X10: with [get_q_gram_pos] set, a bit of the Bloom filter is 1
    exactly when its position belongs to the position set of some key of
    [q_gram_pos_dict]. *)
Theorem hash_q_gram_set_pos_bits hf l k rh (qs : list string) (salt : option string) (s : S) :
  RandomHashing_init hf l k = Some rh ->
  exists bf pd s', hash_q_gram_set_pos rh qs salt s = Some (bf, pd, s') /\
    forall i, bf !! i = Some true <-> exists key ps, In (key, ps) pd /\ In (Z.of_nat i) ps.
Proof.
  intros Hi. destruct (hash_q_gram_set_pos_mark hf l k rh qs salt s Hi) as [s' E].
  destruct (pos_dict_props rh qs salt) as (_ & H2 & H3).
  do 3 eexists. split; [exact E|]. intros i.
  apply RandomHashing_init_inv in Hi as (Hrh & Hl & Hk).
  rewrite mark_lookup_true. split.
  - intros (b & Hb & Hin). apply replicate_lookup_false in Hb as [-> Hlt].
    destruct Hin as [|Hin]; [done|].
    apply in_flat_map in Hin as (q & Hq & Hiq).
    assert (In (salted q salt) (map fst (fold_left (fun d q => dict_set d (salted q salt)
              (fold_left set_add (q_gram_positions rh None (salted q salt)) [])) qs [])))
      as Hk' by (apply H2, in_map_iff; by exists q).
    apply in_map_iff in Hk' as ([key ps] & Hkey & Hkp). simpl in Hkey. subst key.
    exists (salted q salt), ps. split; [exact Hkp|].
    rewrite (H3 _ _ Hkp), fold_set_add_in. by right.
  - intros (key & ps & Hkp & Hx).
    rewrite (H3 _ _ Hkp), fold_set_add_in in Hx. destruct Hx as [[]|Hx].
    assert (In key (map (fun q => salted q salt) qs)) as Hkey
      by (apply H2, in_map_iff; by exists (key, ps)).
    apply in_map_iff in Hkey as (q & <- & Hq).
    subst rh. pose proof (q_gram_positions_range randbelow_range hf l k None (salted q salt) Hl)
      as Hr. rewrite List.Forall_forall in Hr. specialize (Hr _ Hx).
    exists false. split.
    + apply lookup_replicate. split; [done|lia].
    + right. apply in_flat_map. exists q. split; [done|exact Hx].
Qed.

End HashingPosFacts.

(** ** Reading the sampled records *)

Lemma dict_get_set {A} (d : dict A) (k : string) (v : A) (k' : string) :
  dict_get (dict_set d k v) k' = if String.eqb k' k then Some v else dict_get d k'.
Proof.
  induction d as [|[k0 v0] d IH]; simpl.
  - by destruct (String.eqb k' k).
  - destruct (String.eqb_spec k k0) as [<-|Hne]; simpl.
    + by destruct (String.eqb k' k).
    + rewrite IH. destruct (String.eqb_spec k' k0) as [->|Hne'].
      * destruct (String.eqb_spec k0 k) as [->|]; [done|reflexivity].
      * reflexivity.
Qed.

Lemma dict_mem_false_get {A} (d : dict A) (k : string) :
  dict_mem d k = false -> dict_get d k = None.
Proof.
  unfold dict_mem. induction d as [|[k0 v0] d IH]; simpl; [done|].
  intros E. apply orb_false_iff in E as [E1 E2]. rewrite E1. by apply IH.
Qed.

Lemma total_records_set (twd : dict (dict rec)) (t : string) (d' : dict rec) :
  (total_records (dict_set twd t d') + length (default [] (dict_get twd t))
   = total_records twd + length d')%nat.
Proof.
  unfold total_records. induction twd as [|[k0 v0] twd IH]; simpl; [lia|].
  destruct (String.eqb_spec t k0) as [->|Hne]; simpl; lia.
Qed.

Lemma lookup_record_set (twd : dict (dict rec)) (t rid : string) (r : rec) (t' id' : string) :
  lookup_record (dict_set twd t (dict_set (default [] (dict_get twd t)) rid r)) t' id'
  = if String.eqb t' t && String.eqb id' rid then Some r else lookup_record twd t' id'.
Proof.
  unfold lookup_record. rewrite dict_get_set.
  destruct (String.eqb_spec t' t) as [->|Hne]; simpl; [|done].
  rewrite dict_get_set. destruct (String.eqb id' rid); [done|].
  by destruct (dict_get twd t).
Qed.

Lemma read_row_spec ev (twd : dict (dict rec)) (row : list string) (twd' : dict (dict rec)) :
  read_row ev twd row = Some twd' ->
  exists rid field t qs,
    nth_error row 0 = Some rid /\ nth_error row 1 = Some field /\ nth_error row 2 = Some t /\
    In t FILTERED_ID_TYPES /\ ev field = Some qs /\ lookup_record twd t rid = None /\
    twd' = dict_set twd t (dict_set (default [] (dict_get twd t)) rid (mk_rec qs None None)).
Proof.
  intros Hr. unfold read_row in Hr. remember FILTERED_ID_TYPES as F eqn:HF.
  destruct (nth_error row 2) as [t|] eqn:E2; [|discriminate Hr].
  cbn -[nth_error existsb dict_set dict_get dict_mem] in Hr.
  destruct (existsb (String.eqb t) F) eqn:Ef; [|discriminate Hr].
  destruct (nth_error row 0) as [rid|] eqn:E0; [|discriminate Hr].
  cbn -[nth_error existsb dict_set dict_get dict_mem] in Hr.
  destruct (nth_error row 1) as [field|] eqn:E1; [|discriminate Hr].
  cbn -[nth_error existsb dict_set dict_get dict_mem] in Hr.
  destruct (dict_mem (default [] (dict_get twd t)) rid) eqn:Em; [discriminate Hr|].
  destruct (ev field) as [qs|] eqn:Eev; [|discriminate Hr].
  cbn -[nth_error existsb dict_set dict_get dict_mem] in Hr. injection Hr as <-.
  exists rid, field, t, qs. do 3 (split; [done|]).
  split; [subst F; apply existsb_exists in Ef as (x & Hx & Hq);
          apply String.eqb_eq in Hq; by subst x|].
  split; [done|]. split; [|done]. unfold lookup_record.
  apply dict_mem_false_get in Em. by destruct (dict_get twd t).
Qed.

Lemma read_rows_spec ev (rows : list (list string)) (twd twd' : dict (dict rec)) :
  read_rows ev rows twd = Some twd' ->
  List.NoDup (map fst twd) -> (forall t, In t (map fst twd) -> In t FILTERED_ID_TYPES) ->
  List.NoDup (map fst twd') /\ (forall t, In t (map fst twd') -> In t FILTERED_ID_TYPES) /\
  total_records twd' = (total_records twd + length rows)%nat /\
  List.NoDup (map (fun row => (nth_error row 0, nth_error row 2)) rows) /\
  Forall (fun row => exists rid t, nth_error row 0 = Some rid /\ nth_error row 2 = Some t /\
                                   lookup_record twd t rid = None) rows /\
  (forall t id r, lookup_record twd' t id = Some r <->
     lookup_record twd t id = Some r \/
     exists row field qs, In row rows /\ nth_error row 0 = Some id /\
       nth_error row 1 = Some field /\ nth_error row 2 = Some t /\ ev field = Some qs /\
       r = mk_rec qs None None).
Proof.
  revert twd; induction rows as [|row rows IH]; intros twd Hr Hnd Hkeys; simpl in Hr.
  - injection Hr as <-. split; [done|]. split; [done|]. split; [simpl; lia|].
    split; [constructor|]. split; [constructor|].
    intros t id r. split; [by left|]. intros [?|(row & _ & _ & [] & _)]; done.
  - destruct (read_row ev twd row) as [twd1|] eqn:Erow; simpl in Hr; [|done].
    destruct (read_row_spec ev twd row twd1 Erow)
      as (rid & field & t0 & qs & E0 & E1 & E2 & Ht0 & Eev & Hfresh & ->).
    destruct (IH _ Hr) as (H1 & H2 & H3 & H4 & H5 & H6).
    { by apply dict_set_nodup. }
    { intros t Ht. apply dict_set_keys_iff in Ht as [->|Ht]; [done|by apply Hkeys]. }
    pose proof (total_records_set twd t0
                  (dict_set (default [] (dict_get twd t0)) rid (mk_rec qs None None))) as Htot.
    assert (length (dict_set (default [] (dict_get twd t0)) rid (mk_rec qs None None))
            = Datatypes.S (length (default [] (dict_get twd t0)))) as Hlen.
    { rewrite dict_set_fresh; [rewrite length_app; simpl; lia|].
      intros Hin. unfold lookup_record in Hfresh.
      destruct (dict_get twd t0) as [d|]; simpl in *; [|done].
      apply in_map_iff in Hin as ([k v] & Hk & Hin). simpl in Hk. subst k.
      assert (exists v', dict_get d rid = Some v') as [v' Hv'].
      { clear -Hin. induction d as [|[k0 v0] d IH]; simpl in *; [done|].
        destruct Hin as [[= -> ->]|Hin]; [rewrite String.eqb_refl; by eexists|].
        destruct (String.eqb rid k0); [by eexists|by apply IH]. }
      congruence. }
    split; [done|]. split; [done|]. split; [simpl; lia|].
    assert (forall t id r, lookup_record twd t id = Some r ->
              lookup_record (dict_set twd t0 (dict_set (default [] (dict_get twd t0)) rid
                (mk_rec qs None None))) t id = Some r) as Hext.
    { intros t id r Hl. rewrite lookup_record_set.
      destruct (String.eqb_spec t t0) as [->|]; destruct (String.eqb_spec id rid) as [->|];
        simpl; congruence. }
    assert (lookup_record (dict_set twd t0 (dict_set (default [] (dict_get twd t0)) rid
              (mk_rec qs None None))) t0 rid = Some (mk_rec qs None None)) as Hnew.
    { rewrite lookup_record_set, !String.eqb_refl. done. }
    split.
    + cbn [map]. constructor; [|done]. rewrite E0, E2. intros Hin.
      apply in_map_iff in Hin as (row' & Hrow' & Hin'). cbv beta in Hrow'.
      rewrite List.Forall_forall in H5. destruct (H5 row' Hin') as (rid' & t' & E0' & E2' & Hn).
      rewrite E0', E2' in Hrow'. injection Hrow' as -> ->. congruence.
    + split.
      * constructor; [by exists rid, t0|].
        eapply Forall_impl; [exact H5|]. intros row' (rid' & t' & E0' & E2' & Hn).
        exists rid', t'. split; [done|]. split; [done|].
        destruct (lookup_record twd t' rid') as [r'|] eqn:El; [|done].
        apply Hext in El. congruence.
      * intros t id r. rewrite H6, lookup_record_set. split.
        -- intros [Hl|Hex].
           ++ destruct (String.eqb_spec t t0) as [->|Hne1];
                destruct (String.eqb_spec id rid) as [->|Hne2]; simpl in Hl.
              ** injection Hl as <-. right. exists row, field, qs. by repeat split; try left.
              ** by left.
              ** by left.
              ** by left.
           ++ right. destruct Hex as (row' & field' & qs' & Hin & ?). exists row', field', qs'.
              split; [by right|done].
        -- intros [Hl|(row' & field' & qs' & [<-|Hin] & E0' & E1' & E2' & Eev' & ->)].
           ++ left. destruct (String.eqb_spec t t0) as [->|Hne1];
                destruct (String.eqb_spec id rid) as [->|Hne2]; simpl; try done.
              congruence.
           ++ left. rewrite E0 in E0'. rewrite E1 in E1'. rewrite E2 in E2'.
              injection E0' as <-. injection E1' as <-. injection E2' as <-.
              rewrite Eev in Eev'. injection Eev' as <-.
              by rewrite !String.eqb_refl.
           ++ right. by exists row', field', qs'.
Qed.

Lemma read_extracted_data_spec ev (lines : list (list string)) (bss : Z) (twd : dict (dict rec)) :
  read_extracted_data ev lines bss = Some twd ->
  exists rows, lines = ["rec_id"; "q_gram_set"; "type"]%string :: rows /\
    read_rows ev rows [] = Some twd /\
    Z.of_nat (total_records twd) = bss + 12000 /\ length twd = length FILTERED_ID_TYPES.
Proof.
  unfold read_extracted_data. destruct lines as [|header rows]; [done|].
  destruct (List.list_eq_dec String.string_dec header ["rec_id"; "q_gram_set"; "type"]%string)
    as [->|]; [|done].
  destruct (read_rows ev rows []) as [twd0|] eqn:Er; simpl; [|done].
  destruct (Z.eqb_spec (Z.of_nat (total_records twd0)) (bss + 12000)); [|done].
  destruct (Nat.eqb_spec (length twd0) 13); [|done].
  intros [= <-]. by exists rows.
Qed.

(** X11: [read_extracted_data] returns only for a file whose header is
    [rec_id,q_gram_set,type] and which has exactly [base_sample_size +
    12000] data rows, no two of them with the same record identifier and
    type; the result then has one entry per type, and every type of
    [FILTERED_ID_TYPES] has one. *)
Theorem read_extracted_data_shape ev (lines : list (list string)) (bss : Z)
    (twd : dict (dict rec)) :
  read_extracted_data ev lines bss = Some twd ->
  exists rows, lines = ["rec_id"; "q_gram_set"; "type"]%string :: rows /\
    Z.of_nat (length rows) = bss + 12000 /\
    List.NoDup (map (fun row => (nth_error row 0, nth_error row 2)) rows) /\
    List.NoDup (map fst twd) /\ (forall t, In t (map fst twd) <-> In t FILTERED_ID_TYPES).
Proof.
  intros Hr. destruct (read_extracted_data_spec ev lines bss twd Hr)
    as (rows & -> & Er & Htot & Hlen).
  destruct (read_rows_spec ev rows [] twd Er ltac:(constructor) ltac:(intros ? []))
    as (H1 & H2 & H3 & H4 & _).
  exists rows. split; [done|]. split; [rewrite <- Htot, H3; reflexivity|].
  split; [done|]. split; [done|].
  intros t. split; [apply H2|].
  apply (List.NoDup_length_incl (l := map fst twd) (l' := FILTERED_ID_TYPES) H1).
  - rewrite length_map, Hlen. lia.
  - intros x. apply H2.
Qed.

(** X12: after [read_extracted_data], [type_wise_dict[t][i]] exists
    exactly when some data row has identifier [i] and type [t]; it is then
    the record [{"q_gram_set": eval(field)}] of that row's second field. *)
Theorem read_extracted_data_records ev (lines : list (list string)) (bss : Z)
    (twd : dict (dict rec)) :
  read_extracted_data ev lines bss = Some twd ->
  forall t id r, lookup_record twd t id = Some r <->
    exists row field qs, In row (tl lines) /\ nth_error row 0 = Some id /\
      nth_error row 1 = Some field /\ nth_error row 2 = Some t /\ ev field = Some qs /\
      r = mk_rec qs None None.
Proof.
  intros Hr t id r. destruct (read_extracted_data_spec ev lines bss twd Hr)
    as (rows & -> & Er & _ & _).
  destruct (read_rows_spec ev rows [] twd Er ltac:(constructor) ltac:(intros ? []))
    as (_ & _ & _ & _ & _ & H6).
  simpl. rewrite H6. split; [intros [Hl|Hex]; [done|exact Hex]|intros Hex; by right].
Qed.

(** ** Encoding *)

Section EncodingFacts.
Context {S : Type} `{PyRandom S}.

Hypothesis randbelow_range : forall n s, 0 < n -> 0 <= fst (randbelow n s) < n.

Lemma encode_type_dict_spec hf l k rh (d : dict rec) (s : S) :
  RandomHashing_init hf l k = Some rh ->
  exists s', encode_type_dict rh d s
    = Some (map (fun kv => (kv.1, set_og_bf kv.2 (mark (replicate (Z.to_nat l) false)
               (flat_map (q_gram_positions rh None) (q_gram_set kv.2))))) d, s').
Proof.
  intros Hi. revert s; induction d as [|[rid r] d IH]; intros s; simpl; [by exists s|].
  destruct (hash_q_gram_set_mark randbelow_range hf l k rh (q_gram_set r) None s Hi) as [s1 ->].
  simpl. destruct (IH s1) as [s2 ->]. simpl. by exists s2.
Qed.

Lemma encode_types_spec hf l k rh (data : dict (dict rec)) (s : S) :
  RandomHashing_init hf l k = Some rh ->
  exists s', encode_types rh data s
    = Some (map (fun tkv => (tkv.1, map (fun kv => (kv.1, set_og_bf kv.2
               (mark (replicate (Z.to_nat l) false)
                  (flat_map (q_gram_positions rh None) (q_gram_set kv.2))))) tkv.2)) data, s').
Proof.
  intros Hi. revert s; induction data as [|[t d] data IH]; intros s; simpl; [by exists s|].
  destruct (encode_type_dict_spec hf l k rh d s Hi) as [s1 ->]. simpl.
  destruct (IH s1) as [s2 ->]. simpl. by exists s2.
Qed.

Lemma encode_bfs_spec hf l k (data : dict (dict rec)) (s : S) :
  (1 < l /\ 0 < k ->
   exists s', encode_bfs hf l k data s
     = Some (map (fun tkv => (tkv.1, map (fun kv => (kv.1, set_og_bf kv.2
               (mark (replicate (Z.to_nat l) false)
                  (flat_map (q_gram_positions (mk_RH_rec hf l k) None) (q_gram_set kv.2)))))
               tkv.2)) data, s')) /\
  (~ (1 < l /\ 0 < k) -> encode_bfs hf l k data s = None).
Proof.
  unfold encode_bfs. split.
  - intros [Hl Hk].
    assert (RandomHashing_init hf l k = Some (mk_RH_rec hf l k)) as Hi.
    { unfold RandomHashing_init. apply Z.ltb_lt in Hl, Hk. by rewrite Hl, Hk. }
    rewrite Hi. simpl. exact (encode_types_spec hf l k _ data s Hi).
  - intros Hn. unfold RandomHashing_init.
    destruct ((1 <? l) && (0 <? k)) eqn:E; [|done].
    exfalso. apply Hn. apply andb_prop in E as [E1 E2].
    apply Z.ltb_lt in E1, E2. done.
Qed.

(** X13: [encode_bfs] raises exactly when [RandomHashing] rejects its
    parameters ([l_b <= 1] or [k_val <= 0]), whatever the records;
    otherwise it keeps every type and every record in place and sets the
    ["og_bf"] of each record to the Bloom filter whose 1-bits are the
    positions its q-grams hash to, leaving the other attributes as they
    were. *)
Theorem encode_bfs_result hf l k (data : dict (dict rec)) (s : S) :
  (encode_bfs hf l k data s = None <-> ~ (1 < l /\ 0 < k)) /\
  (1 < l -> 0 < k ->
   exists s', encode_bfs hf l k data s
     = Some (map (fun tkv => (tkv.1, map (fun kv => (kv.1, set_og_bf kv.2
               (mark (replicate (Z.to_nat l) false)
                  (flat_map (q_gram_positions (mk_RH_rec hf l k) None) (q_gram_set kv.2)))))
               tkv.2)) data, s')).
Proof.
  destruct (encode_bfs_spec hf l k data s) as [Hok Hbad]. split.
  - split; [|exact Hbad]. intros Hn Hv. destruct (Hok Hv) as [s' E]. congruence.
  - intros Hl Hk. by apply Hok.
Qed.

(** X14: two records that [encode_bfs] encodes, of the same type or of
    different types, whose q-gram sets have the same members get the same
    ["og_bf"]. *)
Theorem encode_bfs_same_q_grams hf l k (data data' : dict (dict rec)) (s s' : S)
    (t1 t2 id1 id2 : string) (d1 d2 : dict rec) (r1 r2 : rec) :
  encode_bfs hf l k data s = Some (data', s') ->
  In (t1, d1) data' -> In (id1, r1) d1 -> In (t2, d2) data' -> In (id2, r2) d2 ->
  (forall q, In q (q_gram_set r1) <-> In q (q_gram_set r2)) ->
  og_bf r1 = og_bf r2 /\ og_bf r1 <> None.
Proof.
  intros He Ht1 Hr1 Ht2 Hr2 Hq.
  destruct (encode_bfs_spec hf l k data s) as [Hok Hbad].
  destruct (decide (1 < l /\ 0 < k)) as [Hv|Hv]; [|rewrite (Hbad Hv) in He; done].
  destruct (Hok Hv) as [s0 E]. rewrite E in He. injection He as <- _.
  apply in_map_iff in Ht1 as ([t1' d1'] & [= <- <-] & _).
  apply in_map_iff in Ht2 as ([t2' d2'] & [= <- <-] & _).
  apply in_map_iff in Hr1 as ([i1 r1'] & [= <- <-] & _).
  apply in_map_iff in Hr2 as ([i2 r2'] & [= <- <-] & _).
  simpl in *. split; [|done]. f_equal.
  apply mark_same_members. by apply flat_map_same_members.
Qed.

Lemma k_val_of_cases (k_ratio : Q) (k_opt : Z) :
  0 < k_opt -> (k_ratio = 1#2 \/ k_ratio = 1 \/ k_ratio = 2)%Q ->
  (k_ratio = (1#2)%Q /\ k_val_of k_ratio k_opt = k_opt / 2) \/
  (k_ratio <> (1#2)%Q /\ k_opt <= k_val_of k_ratio k_opt).
Proof.
  intros Hk Hr. unfold k_val_of, py_int.
  destruct Hr as [ -> | [ -> | -> ]].
  - left. split; [done|].
    assert (Qle_bool 0 ((1#2) * inject_Z k_opt) = true) as ->
      by (apply Qle_bool_iff; unfold Qle; simpl; lia).
    unfold Qfloor; simpl. f_equal. lia.
  - right. split; [discriminate|].
    assert (Qle_bool 0 (1 * inject_Z k_opt) = true) as ->
      by (apply Qle_bool_iff; unfold Qle; simpl; lia).
    unfold Qfloor; simpl. rewrite Z.div_1_r. lia.
  - right. split; [discriminate|].
    assert (Qle_bool 0 (2 * inject_Z k_opt) = true) as ->
      by (apply Qle_bool_iff; unfold Qle; simpl; lia).
    unfold Qfloor; simpl. rewrite Z.div_1_r. lia.
Qed.

(** X15: in the main block of [encoder.py], once the checks [bf_len > 0],
    [k_ratio in [0.5, 1.0, 2.0]] and [k_opt > 0] have passed, the
    encoding step still raises exactly when [bf_len = 1] or [k_ratio =
    0.5] with [k_opt = 1] ([k_val = int(0.5 * 1) = 0]). *)
Theorem encode_bfs_k_val_abort hf (bf_len : Z) (k_ratio : Q) (k_opt : Z)
    (data : dict (dict rec)) (s : S) :
  0 < bf_len -> (k_ratio = 1#2 \/ k_ratio = 1 \/ k_ratio = 2)%Q -> 0 < k_opt ->
  (encode_bfs hf bf_len (k_val_of k_ratio k_opt) data s = None <->
   bf_len = 1 \/ (k_ratio = (1#2)%Q /\ k_opt = 1)).
Proof.
  intros Hl Hr Hk.
  destruct (encode_bfs_spec hf bf_len (k_val_of k_ratio k_opt) data s) as [Hok Hbad].
  assert (encode_bfs hf bf_len (k_val_of k_ratio k_opt) data s = None <->
          ~ (1 < bf_len /\ 0 < k_val_of k_ratio k_opt)) as ->.
  { split; [|exact Hbad]. intros Hn Hv. destruct (Hok Hv) as [s' E]. congruence. }
  destruct (k_val_of_cases k_ratio k_opt Hk Hr) as [[-> ->] | [Hne Hge]].
  - split.
    + intros Hn. destruct (Z.eq_dec bf_len 1) as [|Hb]; [by left|right].
      split; [done|]. destruct (Z.eq_dec k_opt 1) as [|Hk1]; [done|].
      exfalso. apply Hn. split; [lia|]. apply Z.div_str_pos. lia.
    + intros [ -> | [_ Hk1]] [Hb Hv]; [lia|]. subst k_opt. done.
  - split.
    + intros Hn. left. destruct (Z.eq_dec bf_len 1) as [|Hb]; [done|].
      exfalso. apply Hn. lia.
    + intros [ -> | [? _]] [Hb Hv]; [lia|done].
Qed.

End EncodingFacts.

(** ** The loop over the record types *)

Lemma process_subset_totals `{PyRandom St} (sel : sel_method) (p : Q) (base subset : dict rec)
    (bss : Z) (s : St) (co ch : counters) (s' : St) :
  process_subset sel p base subset bss s = Some (co, ch, s') ->
  counters_total co = length subset /\ counters_total ch = length subset.
Proof.
  unfold process_subset. destruct (comparison_pool base subset s) as [pool s1].
  destruct (BLIP_init sel p (Some 42)) as [hd1|]; simpl; [|done].
  destruct (harden_pass hd1 subset s1) as [[subset' s2]|] eqn:E1; simpl; [|done].
  destruct (harden_pass hd1 pool s2) as [[pool' s3]|] eqn:E2; simpl; [|done].
  destruct (pool_size_ok pool' base subset' bss); [|done].
  destruct (compare_loop subset' pool' counters0 counters0) as [[co0 ch0]|] eqn:E3;
    simpl; [|done].
  intros [= -> -> ->].
  apply compare_loop_totals in E3. apply harden_pass_length in E1.
  rewrite counters0_total in E3. lia.
Qed.

Lemma dict_mem_false_not_in {A} (d : dict A) (k : string) :
  dict_mem d k = false -> ~ In k (map fst d).
Proof.
  unfold dict_mem. intros E Hin.
  assert (existsb (String.eqb k) (map fst d) = true) as Ht
    by (apply existsb_exists; exists k; split; [done|apply String.eqb_refl]).
  congruence.
Qed.

Lemma compare_types_spec `{PyRandom St} sel p bss (base : dict rec) (data : dict (dict rec))
    (res0 res : dict (counters * counters)) (s s' : St) :
  compare_types sel p bss base data res0 s = Some (res, s') ->
  exists new, res = res0 ++ new /\
    Forall2 (fun tkv tcc => tkv.1 = tcc.1 /\ counters_total tcc.2.1 = length tkv.2
                            /\ counters_total tcc.2.2 = length tkv.2)
      (List.filter (fun tkv => negb (String.eqb tkv.1 "b")) data) new.
Proof.
  revert res0 s; induction data as [|[t d] data IH]; intros res0 s Hc;
    cbn [compare_types] in Hc; cbn [List.filter fst].
  - injection Hc as <- _. exists []. by rewrite app_nil_r.
  - destruct (String.eqb t "b") eqn:Eb; cbn [negb].
    + by apply (IH res0 s).
    + destruct (existsb (String.eqb t) FILTERED_ID_TYPES && negb (dict_mem res0 t)) eqn:Ec;
        [|done].
      apply andb_prop in Ec as [_ Em]. apply negb_true_iff in Em.
      destruct (process_subset sel p base d bss s) as [[[co ch] s1]|] eqn:Ep; simpl in Hc;
        [|done].
      destruct (IH _ _ Hc) as (new & -> & Hf).
      rewrite (dict_set_fresh res0 t (co, ch) (dict_mem_false_not_in res0 t Em)).
      exists ((t, (co, ch)) :: new). split; [by rewrite <- List.app_assoc|].
      constructor; [|done]. simpl.
      destruct (process_subset_totals sel p base d bss s co ch s1 Ep). done.
Qed.

(** X16: when [compare_record_pairs] returns, [data_dict] has a base type
    ["b"], and [res_dict] has one entry per other type of [data_dict], in
    the order of [data_dict]; for each, the four counters of either
    variant add up to the number of records of that type. *)
Theorem compare_record_pairs_totals `{PyRandom St} (data : dict (dict rec)) (sel : sel_method)
    (p : Q) (bss : Z) (s : St) (res : dict (counters * counters)) (s' : St) :
  compare_record_pairs data sel p bss s = Some (res, s') ->
  In "b"%string (map fst data) /\
  Forall2 (fun tkv tcc => tkv.1 = tcc.1 /\ counters_total tcc.2.1 = length tkv.2
                          /\ counters_total tcc.2.2 = length tkv.2)
    (List.filter (fun tkv => negb (String.eqb tkv.1 "b")) data) res.
Proof.
  unfold compare_record_pairs.
  destruct (dict_get data "b") as [base|] eqn:Eb; simpl; [|done]. intros Hc.
  split.
  - clear Hc. induction data as [|[t d] data IH]; cbn [dict_get map fst] in Eb |- *; [done|].
    destruct (String.eqb_spec "b" t) as [<-|]; [by left|right; by apply IH].
  - by destruct (compare_types_spec sel p bss base data [] res s s' Hc) as (new & -> & Hf).
Qed.

(** ** The comparison pool *)

Lemma dict_get_app {A} (d1 d2 : dict A) (k : string) :
  dict_get (d1 ++ d2) k = match dict_get d1 k with Some v => Some v | None => dict_get d2 k end.
Proof.
  induction d1 as [|[k0 v0] d1 IH]; simpl; [done|]. by destruct (String.eqb k k0).
Qed.

Lemma fold_dict_set_get {A} (items acc : dict A) (k : string) :
  dict_get (fold_left (fun d kv => dict_set d kv.1 kv.2) items acc) k
  = match dict_get (rev items) k with Some v => Some v | None => dict_get acc k end.
Proof.
  revert acc; induction items as [|[k0 v0] items IH]; intros acc; simpl; [done|].
  rewrite IH, dict_get_app, dict_get_set. simpl.
  destruct (dict_get (rev items) k); [done|]. by destruct (String.eqb k k0).
Qed.

Lemma dict_get_some_in {A} (d : dict A) (k : string) (v : A) :
  dict_get d k = Some v -> In (k, v) d.
Proof.
  induction d as [|[k0 v0] d IH]; simpl; [done|].
  destruct (String.eqb_spec k k0) as [->|]; [intros [= ->]; by left|].
  intros E; right; by apply IH.
Qed.

Lemma dict_get_none {A} (d : dict A) (k : string) :
  dict_get d k = None <-> ~ In k (map fst d).
Proof.
  induction d as [|[k0 v0] d IH]; simpl; [split; [intros _ []|done]|].
  destruct (String.eqb_spec k k0) as [->|Hne]; split.
  - done.
  - intros Hn. exfalso. by apply Hn; left.
  - intros E [->|Hin]; [done|]. by apply IH.
  - intros Hn. apply IH. intros Hin; apply Hn; by right.
Qed.

Lemma dict_get_in_nodup {A} (d : dict A) (k : string) (v : A) :
  List.NoDup (map fst d) -> dict_get d k = Some v <-> In (k, v) d.
Proof.
  intros Hnd. split; [apply dict_get_some_in|].
  induction d as [|[k0 v0] d IH]; simpl; [done|].
  apply NoDup_cons_iff in Hnd as [Hk Hnd].
  destruct (String.eqb_spec k k0) as [->|Hne].
  - intros [[= ->]|Hin]; [done|].
    exfalso. apply Hk. apply in_map_iff. by exists (k0, v).
  - intros [[= -> ->]|Hin]; [done|]. by apply IH.
Qed.

Lemma nodup_keys_rev {A} (d : dict A) :
  List.NoDup (map fst d) -> List.NoDup (map fst (rev d)).
Proof. intros Hnd. rewrite map_rev. by apply NoDup_rev. Qed.

Lemma dict_merge_get {A} (base subset : dict A) (k : string) :
  dict_get (dict_merge base subset) k
  = match dict_get (rev subset) k with
    | Some v => Some v
    | None => dict_get (rev base) k
    end.
Proof.
  unfold dict_merge, dict_of_items. rewrite fold_dict_set_get, rev_app_distr, dict_get_app.
  simpl. by destruct (dict_get (rev subset) k), (dict_get (rev base) k).
Qed.

Lemma comparison_pool_perm `{PyRandom St} (base subset : dict rec) (s : St) :
  (comparison_pool base subset s).1 ≡ₚ dict_merge base subset.
Proof.
  unfold comparison_pool, random_shuffle.
  pose proof (shuffle_from_perm (length (dict_merge base subset) - 1)
                (dict_merge base subset) s) as Hp.
  destruct (shuffle_from _ (dict_merge base subset) s) as [l s1]; simpl in *.
  assert (List.NoDup (map fst l)) as Hnd.
  { apply (Permutation_NoDup (l := map fst (dict_merge base subset))).
    - apply Permutation_map. by symmetry.
    - apply dict_merge_nodup. }
  by rewrite dict_of_items_id.
Qed.

Lemma comparison_pool_subset_in `{PyRandom St} (base subset : dict rec) (s : St) k r :
  List.NoDup (map fst subset) -> In (k, r) subset -> In (k, r) (comparison_pool base subset s).1.
Proof.
  intros Hnd Hin. apply (Permutation_in (l := dict_merge base subset));
    [symmetry; apply comparison_pool_perm|].
  apply dict_get_some_in. rewrite dict_merge_get.
  assert (dict_get (rev subset) k = Some r) as ->; [|done].
  apply dict_get_in_nodup; [by apply nodup_keys_rev|]. by apply in_rev in Hin.
Qed.

Lemma nodup_keys_nodup {A} (d : dict A) : List.NoDup (map fst d) -> List.NoDup d.
Proof. apply NoDup_map_inv. Qed.

(** X18: for a base and a subset with distinct record ids, the
    comparison pool [{**base_records, **rec_type_dict}] (shuffled) has
    distinct ids; it holds every record of the subset and every base
    record whose id is not in the subset (the subset wins on a shared id),
    and nothing else; so its size is that of the subset plus the number of
    base ids not in the subset. *)
Theorem comparison_pool_contents `{PyRandom St} (base subset : dict rec) (s : St) :
  List.NoDup (map fst base) -> List.NoDup (map fst subset) ->
  List.NoDup (map fst (comparison_pool base subset s).1) /\
  (forall k r, In (k, r) (comparison_pool base subset s).1
               <-> In (k, r) subset \/ (In (k, r) base /\ ~ In k (map fst subset))) /\
  length (comparison_pool base subset s).1
  = (length subset + length (List.filter (fun kv => negb (dict_mem subset kv.1)) base))%nat.
Proof.
  intros Hb Hs. pose proof (comparison_pool_perm base subset s) as Hp.
  set (pool := (comparison_pool base subset s).1) in *.
  assert (List.NoDup (map fst pool)) as Hnd.
  { apply (Permutation_NoDup (l := map fst (dict_merge base subset))).
    - apply Permutation_map. by symmetry.
    - apply dict_merge_nodup. }
  assert (forall k r, In (k, r) pool
            <-> In (k, r) subset \/ (In (k, r) base /\ ~ In k (map fst subset))) as Hin.
  { intros k r. split.
    - intros Hk. apply (Permutation_in (l' := dict_merge base subset)) in Hk; [|done].
      apply (dict_get_in_nodup _ _ _ (dict_merge_nodup base subset)) in Hk.
      rewrite dict_merge_get in Hk.
      destruct (dict_get (rev subset) k) as [v|] eqn:Es.
      + injection Hk as ->. left. apply in_rev. by apply dict_get_some_in.
      + right. apply dict_get_some_in in Hk. apply in_rev in Hk. split; [done|].
        apply dict_get_none in Es. rewrite map_rev in Es. intros Hc; apply Es.
        by apply in_rev in Hc.
    - intros Hk. apply (Permutation_in (l := dict_merge base subset));
        [by symmetry|].
      apply dict_get_some_in. rewrite dict_merge_get.
      destruct Hk as [Hk|[Hk Hn]].
      + assert (dict_get (rev subset) k = Some r) as ->; [|done].
        apply dict_get_in_nodup; [by apply nodup_keys_rev|]. by apply in_rev in Hk.
      + assert (dict_get (rev subset) k = None) as ->.
        { apply dict_get_none. rewrite map_rev. intros Hc; apply Hn. by apply in_rev in Hc. }
        apply dict_get_in_nodup; [by apply nodup_keys_rev|]. by apply in_rev in Hk. }
  split; [done|]. split; [done|].
  set (rest := List.filter (fun kv => negb (dict_mem subset kv.1)) base).
  assert (List.NoDup (map fst (subset ++ rest))) as Hnd2.
  { rewrite map_app. apply List.NoDup_app; [done| |].
    - by apply NoDup_map_fst_filter.
    - intros k Hk Hk'. apply in_map_iff in Hk' as ([k' v'] & <- & Hk').
      apply filter_In in Hk' as [_ Hm]. simpl in Hm. apply negb_true_iff in Hm.
      by apply (dict_mem_false_not_in subset k'). }
  rewrite <- length_app. apply Permutation_length. apply Stdlib.Sorting.Permutation.NoDup_Permutation.
  - by apply nodup_keys_nodup.
  - by apply nodup_keys_nodup.
  - intros [k r]. rewrite Hin, in_app_iff. subst rest. rewrite filter_In. simpl.
    rewrite negb_true_iff. split.
    + intros [Hk|[Hk Hn]]; [by left|right]. split; [done|].
      unfold dict_mem. destruct (existsb _ _) eqn:E; [|done].
      exfalso. apply Hn. apply existsb_exists in E as (x & Hx & Hq).
      apply String.eqb_eq in Hq. by subst x.
    + intros [Hk|[Hk Hm]]; [by left|right]. split; [done|].
      by apply dict_mem_false_not_in.
Qed.

(** ** The original filters never mislead *)

Lemma Forall2_in_l {A B} (R : A -> B -> Prop) (l : list A) (l' : list B) (x : A) :
  Forall2 R l l' -> In x l -> exists y, In y l' /\ R x y.
Proof.
  induction 1 as [|a b l l' Hab Hf IH]; simpl; [done|].
  intros [<-|Hx]; [exists b; split; [by left|done]|].
  destruct (IH Hx) as (y & Hy & Hr). exists y. split; [by right|done].
Qed.

Lemma Forall2_in_r {A B} (R : A -> B -> Prop) (l : list A) (l' : list B) (y : B) :
  Forall2 R l l' -> In y l' -> exists x, In x l /\ R x y.
Proof.
  induction 1 as [|a b l l' Hab Hf IH]; simpl; [done|].
  intros [<-|Hy]; [exists a; split; [by left|done]|].
  destruct (IH Hy) as (x & Hx & Hr). exists x. split; [by right|done].
Qed.

Lemma harden_pass_og `{PyRandom St} (b : BLIP) (d d' : dict rec) (s s' : St) :
  harden_pass b d s = Some (d', s') ->
  Forall2 (fun kv kv' => kv.1 = kv'.1 /\ og_bf kv'.2 = og_bf kv.2) d d'.
Proof.
  revert s s' d'; induction d as [|[rid r] d IH]; intros s s' d' Hp; simpl in Hp.
  - injection Hp as <- _. constructor.
  - destruct (og_bf r) as [og|] eqn:Eog; simpl in Hp; [|done].
    destruct (harden_bf b og s) as [blip s1].
    destruct (harden_pass b d s1) as [[d1 s2]|] eqn:E; simpl in Hp; [|done].
    injection Hp as <- _. constructor; [by simpl|]. exact (IH s1 s2 d1 E).
Qed.

Lemma similarities_og_in (og hd : list bool) (pool : dict rec) os hs cid c cog :
  similarities og hd pool = Some (os, hs) -> In (cid, c) pool -> og_bf c = Some cog ->
  In (cid, bit_array_dice_sim og cog) os.
Proof.
  revert os hs; induction pool as [|[cid' c'] pool IH]; intros os hs Hs Hin Hc; [done|].
  simpl in Hs. destruct (og_bf c') as [c_og|] eqn:Eo; simpl in Hs; [|done].
  destruct (hd_bf c') as [c_hd|]; simpl in Hs; [|done].
  destruct (similarities og hd pool) as [[os' hs']|] eqn:E; simpl in Hs; [|done].
  injection Hs as <- _. destruct Hin as [[= -> ->]|Hin].
  - rewrite Eo in Hc. injection Hc as ->. by left.
  - right. by apply (IH os' hs').
Qed.

Lemma similarities_og_vals (og hd : list bool) (pool : dict rec) os hs v :
  similarities og hd pool = Some (os, hs) -> In v (map snd os) ->
  exists cog, v = bit_array_dice_sim og cog.
Proof.
  revert os hs; induction pool as [|[cid' c'] pool IH]; intros os hs Hs Hin; simpl in Hs.
  - by injection Hs as <- _.
  - destruct (og_bf c') as [c_og|]; simpl in Hs; [|done].
    destruct (hd_bf c') as [c_hd|]; simpl in Hs; [|done].
    destruct (similarities og hd pool) as [[os' hs']|] eqn:E; simpl in Hs; [|done].
    injection Hs as <- _. destruct Hin as [<-|Hin]; [by exists c_og|].
    by apply (IH os' hs').
Qed.

Lemma dice_le_1 (a b : list bool) : (bit_array_dice_sim a b <= 1)%Q.
Proof.
  unfold bit_array_dice_sim.
  pose proof (popcount_and_le_l a b). pose proof (popcount_and_le_r a b).
  destruct (Nat.eqb_spec (popcount a + popcount b) 0) as [|Hne]; [discriminate|].
  assert (0 < inject_Z (Z.of_nat (popcount a + popcount b)))%Q as Hd
    by (unfold Qlt, inject_Z; simpl; lia).
  apply Qle_shift_div_r; [exact Hd|]. unfold Qle, Qmult, inject_Z; simpl; lia.
Qed.

Lemma dice_self (a : list bool) : (0 < popcount a)%nat -> (bit_array_dice_sim a a == 1)%Q.
Proof.
  intros Ha. unfold bit_array_dice_sim. rewrite zip_with_andb_diag.
  destruct (Nat.eqb_spec (popcount a + popcount a) 0) as [|_]; [lia|].
  replace (2 * Z.of_nat (popcount a))%Z with (Z.of_nat (popcount a + popcount a)) by lia.
  unfold Qdiv. apply Qmult_inv_r. unfold Qeq, inject_Z; simpl; lia.
Qed.

Lemma record_outcome_top (rid : string) (sim : dict Q) (v : Q) (c c' : counters) :
  In (rid, v) sim -> (forall v', In v' (map snd sim) -> (v' <= v)%Q) ->
  record_outcome rid sim c = Some c' ->
  c11_wrong c' = c11_wrong c /\ c1n_wrong c' = c1n_wrong c.
Proof.
  intros Hin Htop. unfold record_outcome.
  destruct (py_max (map snd sim)) as [mv|] eqn:Em; simpl; [|done]. intros [= <-].
  pose proof (py_max_spec _ _ Em) as [Hmv Hle].
  assert (In rid (map fst (List.filter (fun kv => Qeq_bool kv.2 mv) sim))) as Hk.
  { apply in_max_keys. exists v. split; [done|]. apply Qle_antisym.
    - apply Hle. apply in_map_iff. by exists (rid, v).
    - by apply Htop. }
  remember (map fst (List.filter (fun kv => Qeq_bool kv.2 mv) sim)) as mk eqn:Hmk.
  destruct mk as [|k0 [|k1 mk']]; [done| |].
  - destruct Hk as [<-|[]]. cbn [length Nat.eqb Nat.ltb Nat.leb].
    rewrite String.eqb_refl. done.
  - cbn [length Nat.eqb Nat.ltb Nat.leb].
    assert (existsb (String.eqb rid) (k0 :: k1 :: mk') = true) as ->; [|done].
    apply existsb_exists. exists rid. split; [done|apply String.eqb_refl].
Qed.

Lemma compare_loop_og_never_wrong (subset pool : dict rec) (co ch co' ch' : counters) :
  Forall (fun kv => exists og, og_bf kv.2 = Some og /\ (0 < popcount og)%nat /\
            exists r', In (kv.1, r') pool /\ og_bf r' = Some og) subset ->
  compare_loop subset pool co ch = Some (co', ch') ->
  c11_wrong co' = c11_wrong co /\ c1n_wrong co' = c1n_wrong co.
Proof.
  revert co ch; induction subset as [|[rid r] rest IH]; intros co ch Hf Hc; simpl in Hc.
  - by injection Hc as <- _.
  - inversion Hf as [|? ? (og & Hog & Hpop & r' & Hr' & Hog') Hrest]; subst. simpl in *.
    rewrite Hog in Hc. simpl in Hc.
    destruct (hd_bf r) as [hd|]; simpl in Hc; [|done].
    destruct (similarities og hd pool) as [[os hs]|] eqn:Es; simpl in Hc; [|done].
    destruct (record_outcome rid os co) as [co1|] eqn:E1; simpl in Hc; [|done].
    destruct (record_outcome rid hs ch) as [ch1|] eqn:E2; simpl in Hc; [|done].
    destruct (IH co1 ch1 Hrest Hc) as [-> ->].
    apply (record_outcome_top rid os (bit_array_dice_sim og og) co co1); [| |done].
    + by apply (similarities_og_in og hd pool os hs rid r').
    + intros v' Hv'. destruct (similarities_og_vals og hd pool os hs v' Es Hv') as [cog ->].
      rewrite (dice_self og Hpop). apply dice_le_1.
Qed.

(** X17: when a subset whose records have distinct ids and non-empty
    original Bloom filters has been processed, the ["og_bf_dice"] variant
    never counts a query record as wrong: each record of the subset is
    also in the comparison pool with the same ["og_bf"], whose Dice
    similarity to itself is 1, the largest possible value. *)
Theorem process_subset_og_never_wrong `{PyRandom St} (sel : sel_method) (p : Q)
    (base subset : dict rec) (bss : Z) (s : St) (co ch : counters) (s' : St) :
  List.NoDup (map fst subset) ->
  Forall (fun kv => exists og, og_bf kv.2 = Some og /\ (0 < popcount og)%nat) subset ->
  process_subset sel p base subset bss s = Some (co, ch, s') ->
  c11_wrong co = 0%nat /\ c1n_wrong co = 0%nat.
Proof.
  intros Hnd Hf. unfold process_subset.
  destruct (comparison_pool base subset s) as [pool s1] eqn:Ep.
  destruct (BLIP_init sel p (Some 42)) as [hd1|]; simpl; [|done].
  destruct (harden_pass hd1 subset s1) as [[subset' s2]|] eqn:E1; simpl; [|done].
  destruct (harden_pass hd1 pool s2) as [[pool' s3]|] eqn:E2; simpl; [|done].
  destruct (pool_size_ok pool' base subset' bss); [|done].
  destruct (compare_loop subset' pool' counters0 counters0) as [[co0 ch0]|] eqn:E3;
    simpl; [|done].
  intros [= <- _ _].
  apply (compare_loop_og_never_wrong subset' pool' counters0 counters0 co0 ch0); [|done].
  apply List.Forall_forall. intros [rid r'] Hin'.
  destruct (Forall2_in_r _ _ _ _ (harden_pass_og hd1 subset subset' s1 s2 E1) Hin')
    as ([rid0 r] & Hin & Hk & Hog). simpl in Hk, Hog. subst rid0.
  rewrite List.Forall_forall in Hf.
  destruct (Hf (rid, r) Hin) as (og & Hog0 & Hpop). simpl in Hog0.
  exists og. simpl. split; [congruence|]. split; [done|].
  pose proof (comparison_pool_subset_in base subset s rid r Hnd Hin) as Hpool.
  rewrite Ep in Hpool. simpl in Hpool.
  destruct (Forall2_in_l _ _ _ _ (harden_pass_og hd1 pool pool' s2 s3 E2) Hpool)
    as ([rid1 r''] & Hin'' & Hk' & Hog''). simpl in Hk', Hog''. subst rid1.
  exists r''. split; [done|congruence].
Qed.

(** * Witnesses and counterexamples

    All of them run the model with the counter-based generator
    [counter_random]. *)

(** C1 (code bug): two [BLIP] instances, both built with
    [random_seed = 42], harden the one-bit filter [[0]] with 'ala' and
    [p = 1/4].  Run first, the pass gives [[1]]; run after the other
    instance has hardened [[0]], it gives [[0]].  Both passes draw from
    Python's global generator, which neither instance owns or seeds. *)
Lemma hardening_passes_share_generator_counterexample :
  (harden_bf (mk_BLIP_rec ala (1#4) (Some 42)) [false]
     (harden_bf (mk_BLIP_rec ala (1#4) (Some 42)) [false] 0).2).1
  <> (harden_bf (mk_BLIP_rec ala (1#4) (Some 42)) [false] 0).1.
Proof. vm_compute. discriminate. Qed.

(** C1 (code bug), in [compare_record_pairs]: the same base and the same
    subset ["f_l"] get different ["blip_bf_dice"] outcomes (1-n correct
    instead of 1-1 correct), depending on whether subset ["f_h"] was
    processed before them.  The ["og_bf_dice"] outcome is the same. *)
Lemma hardened_outcome_depends_on_earlier_subset :
  option_map (fun r => dict_get r.1 "f_l"%string)
    (compare_record_pairs [("b", [("b1", sample_rec_y)]); ("f_h", [("s1", sample_rec_x)]);
                           ("f_l", [("s2", sample_rec_x)])]%string ala (1#4) (-998) 0)
  = Some (Some (mk_counters 1 0 0 0, mk_counters 0 0 1 0)) /\
  option_map (fun r => dict_get r.1 "f_l"%string)
    (compare_record_pairs [("b", [("b1", sample_rec_y)]);
                           ("f_l", [("s2", sample_rec_x)])]%string ala (1#4) (-998) 0)
  = Some (Some (mk_counters 1 0 0 0, mk_counters 1 0 0 0)).
Proof. split; vm_compute; reflexivity. Qed.

Lemma record_outcome_classification_witness :
  List.NoDup (map fst [("a", 1#2); ("b", 2#4); ("c", 0)]%string%Q) /\
  [("a", 1#2); ("b", 2#4); ("c", 0)]%string%Q <> [] /\
  exists max_set : list string,
    List.NoDup max_set /\
    (forall k, In k max_set <-> maximal [("a", 1#2); ("b", 2#4); ("c", 0)]%string%Q k) /\
    ((max_set = ["a"%string] /\ record_outcome "a" [("a", 1#2); ("b", 2#4); ("c", 0)]%string%Q counters0
                           = Some (incr_11_correct counters0))
     \/ (length max_set = 1%nat /\ ~ In "a"%string max_set
         /\ record_outcome "a" [("a", 1#2); ("b", 2#4); ("c", 0)]%string%Q counters0
            = Some (incr_11_wrong counters0))
     \/ ((1 < length max_set)%nat /\ In "a"%string max_set
         /\ record_outcome "a" [("a", 1#2); ("b", 2#4); ("c", 0)]%string%Q counters0
            = Some (incr_1n_correct counters0))
     \/ ((1 < length max_set)%nat /\ ~ In "a"%string max_set
         /\ record_outcome "a" [("a", 1#2); ("b", 2#4); ("c", 0)]%string%Q counters0
            = Some (incr_1n_wrong counters0))).
Proof.
  assert (List.NoDup (map fst [("a", 1#2); ("b", 2#4); ("c", 0)]%string%Q)) as Hnd.
  { simpl. repeat constructor; simpl; intuition discriminate. }
  split; [exact Hnd|]. split; [discriminate|].
  apply (record_outcome_classification "a" _ counters0 Hnd). discriminate.
Defined.

Lemma process_subset_counter_totals_witness :
  process_subset ala (1#2) [] (sample_subset 1000) 0 0
  = Some (mk_counters 0 0 1000 0, mk_counters 0 0 1000 0, 4999) /\
  counters_total (mk_counters 0 0 1000 0) = length (sample_subset 1000) /\
  counters_total (mk_counters 0 0 1000 0) = length (sample_subset 1000).
Proof.
  assert (process_subset ala (1#2) [] (sample_subset 1000) 0 0
          = Some (mk_counters 0 0 1000 0, mk_counters 0 0 1000 0, 4999)) as E
    by (vm_compute; reflexivity).
  split; [exact E|]. exact (process_subset_counter_totals ala (1#2) [] (sample_subset 1000) 0 0 _ _ _ E).
Defined.

(** C4: the first [random()] draw of the counter generator from state [0]
    is [0.0 <= 0], so the bit is replaced by [random.choice([0, 1])],
    which returns [1]. *)
Lemma harden_bf_sch_zero_counterexample :
  (harden_bf (mk_BLIP_rec sch 0 (Some 42)) [false] 0).1 <> [false].
Proof. vm_compute. discriminate. Qed.

Lemma harden_bf_sch_zero_identity_witness :
  Forall (fun u => (0 < u)%Q) (first_draws (length [true]) 1) /\
  harden_bf (mk_BLIP_rec sch 0 (Some 42)) [true] 1 = ([true], skip_draws (length [true]) 1).
Proof.
  assert (Forall (fun u => (0 < u)%Q) (first_draws (length [true]) 1)) as Hpos.
  { vm_compute. constructor; [reflexivity|constructor]. }
  split; [exact Hpos|]. exact (harden_bf_sch_zero_identity (Some 42) [true] 1 Hpos).
Defined.

Lemma harden_bf_ala_one_complement_witness :
  (forall s : Z, 0 <= (random_bits s).1 < Zpos two_53) /\
  (harden_bf (mk_BLIP_rec ala 1 (Some 42)) [true; false; false] 5).1
  = map negb [true; false; false].
Proof.
  assert (forall s : Z, 0 <= (random_bits s).1 < Zpos two_53) as Hr.
  { intros s. simpl. apply Z.mod_pos_bound. reflexivity. }
  split; [exact Hr|]. exact (harden_bf_ala_one_complement Hr (Some 42) [true; false; false] 5).
Defined.

Lemma hash_q_gram_set_deterministic_witness :
  (forall (n s : Z), 0 < n -> 0 <= (randbelow n s).1 < n) /\
  RandomHashing_init toy_digest 20 3 = Some (mk_RH_rec toy_digest 20 3) /\
  exists bf, option_map fst (hash_q_gram_set (mk_RH_rec toy_digest 20 3)
                               ["he"; "el"; "ll"; "lo"]%string None 0) = Some bf
          /\ option_map fst (hash_q_gram_set (mk_RH_rec toy_digest 20 3)
                               ["he"; "el"; "ll"; "lo"]%string None 11) = Some bf.
Proof.
  assert (forall (n s : Z), 0 < n -> 0 <= (randbelow n s).1 < n) as Hr.
  { intros n s Hn. simpl. by apply Z.mod_pos_bound. }
  assert (RandomHashing_init toy_digest 20 3 = Some (mk_RH_rec toy_digest 20 3)) as Hi
    by reflexivity.
  split; [exact Hr|]. split; [exact Hi|].
  exact (hash_q_gram_set_deterministic Hr toy_digest 20 3 _ _ None 0 11 Hi).
Defined.

Lemma hash_q_gram_set_popcount_order_witness :
  (forall (n s : Z), 0 < n -> 0 <= (randbelow n s).1 < n) /\
  RandomHashing_init toy_digest 20 3 = Some (mk_RH_rec toy_digest 20 3) /\
  Permutation ["he"; "el"; "ll"; "lo"]%string ["lo"; "ll"; "el"; "he"]%string /\
  exists bf, option_map fst (hash_q_gram_set (mk_RH_rec toy_digest 20 3)
                               ["he"; "el"; "ll"; "lo"]%string None 0) = Some bf
          /\ option_map fst (hash_q_gram_set (mk_RH_rec toy_digest 20 3)
                               ["lo"; "ll"; "el"; "he"]%string None 5) = Some bf
          /\ (popcount bf <= length ["he"; "el"; "ll"; "lo"]%string * Z.to_nat 3)%nat.
Proof.
  assert (forall (n s : Z), 0 < n -> 0 <= (randbelow n s).1 < n) as Hr.
  { intros n s Hn. simpl. by apply Z.mod_pos_bound. }
  assert (RandomHashing_init toy_digest 20 3 = Some (mk_RH_rec toy_digest 20 3)) as Hi
    by reflexivity.
  assert (Permutation ["he"; "el"; "ll"; "lo"]%string ["lo"; "ll"; "el"; "he"]%string) as Hp
    by exact (Permutation_rev ["he"; "el"; "ll"; "lo"]%string).
  split; [exact Hr|]. split; [exact Hi|]. split; [exact Hp|].
  exact (hash_q_gram_set_popcount_order Hr toy_digest 20 3 _ _ _ None 0 5 Hi Hp).
Defined.

Lemma bit_array_dice_sim_properties_witness :
  length [true; false; true] = length [true; true; false] /\
  (((0 < popcount [true; false; true] + popcount [true; true; false])%nat ->
     bit_array_dice_sim [true; false; true] [true; true; false]
     == inject_Z (2 * Z.of_nat (popcount (zip_with andb [true; false; true] [true; true; false])))
        / inject_Z (Z.of_nat (popcount [true; false; true] + popcount [true; true; false]))) /\
   (popcount [true; false; true] = 0%nat -> popcount [true; true; false] = 0%nat ->
     bit_array_dice_sim [true; false; true] [true; true; false] == 0) /\
   (0 <= bit_array_dice_sim [true; false; true] [true; true; false] /\
    bit_array_dice_sim [true; false; true] [true; true; false] <= 1) /\
   ((0 < popcount [true; false; true])%nat ->
     bit_array_dice_sim [true; false; true] [true; false; true] == 1))%Q.
Proof.
  assert (length [true; false; true] = length [true; true; false]) as Hl by reflexivity.
  split; [exact Hl|]. exact (bit_array_dice_sim_properties _ _ Hl).
Defined.

(** C9: a subset of one record and an empty base pool merge into a pool
    of the expected size [1 = |S| + |B|], yet the run aborts, because the
    chained check also demands [|S| + |B| = base_sample_size + 1000]. *)
Lemma pool_size_check_counterexample :
  length (dict_merge [] [("s1"%string, sample_rec)]) = (1 + 0)%nat /\
  process_subset ala (1#2) [] [("s1"%string, sample_rec)] 1000000 0 = None.
Proof. split; vm_compute; reflexivity. Qed.

Lemma process_subset_size_check_witness :
  (0 <= 1#2 <= 1)%Q /\
  Forall (fun kv => og_bf kv.2 <> None) ([("b1"%string, sample_rec)] ++ [("s1"%string, sample_rec)]) /\
  (process_subset ala (1#2) [("b1"%string, sample_rec)] [("s1"%string, sample_rec)] 1000000 0 = None <->
   ~ (length (dict_merge [("b1"%string, sample_rec)] [("s1"%string, sample_rec)]) = (1 + 1)%nat
      /\ Z.of_nat (1 + 1) = 1000000 + 1000)).
Proof.
  assert (0 <= 1#2 <= 1)%Q as Hp by (split; vm_compute; discriminate).
  assert (Forall (fun kv => og_bf kv.2 <> None)
            ([("b1"%string, sample_rec)] ++ [("s1"%string, sample_rec)])) as Hf
    by (repeat constructor; discriminate).
  split; [exact Hp|]. split; [exact Hf|].
  exact (process_subset_size_check ala (1#2) [("b1"%string, sample_rec)]
           [("s1"%string, sample_rec)] 1000000 0 Hp Hf).
Defined.

(** ** Witnesses of the further properties *)

Lemma harden_bf_sch_one_ignores_bits_witness :
  (forall s : Z, 0 <= (random_bits s).1 < Zpos two_53) /\
  length [true; false] = length [false; false] /\
  harden_bf (mk_BLIP_rec sch 1 (Some 42)) [true; false] 3
  = harden_bf (mk_BLIP_rec sch 1 (Some 42)) [false; false] 3.
Proof.
  assert (forall s : Z, 0 <= (random_bits s).1 < Zpos two_53) as Hr.
  { intros s. simpl. apply Z.mod_pos_bound. reflexivity. }
  assert (length [true; false] = length [false; false]) as Hl by reflexivity.
  split; [exact Hr|]. split; [exact Hl|].
  exact (harden_bf_sch_one_ignores_bits Hr (Some 42) [true; false] [false; false] 3 Hl).
Defined.

Lemma harden_bf_unselected_identity_witness :
  Forall (fun u => ((1#4) < u)%Q) (first_draws (length [true]) 1) /\
  harden_bf (mk_BLIP_rec ala (1#4) (Some 42)) [true] 1 = ([true], skip_draws (length [true]) 1).
Proof.
  assert (Forall (fun u => ((1#4) < u)%Q) (first_draws (length [true]) 1)) as Hf.
  { vm_compute. constructor; [reflexivity|constructor]. }
  split; [exact Hf|]. exact (harden_bf_unselected_identity ala (1#4) (Some 42) [true] 1 Hf).
Defined.

Lemma hash_q_gram_set_shape_witness :
  (forall (n s : Z), 0 < n -> 0 <= (randbelow n s).1 < n) /\
  RandomHashing_init toy_digest 20 3 = Some (mk_RH_rec toy_digest 20 3) /\
  exists bf s', hash_q_gram_set (mk_RH_rec toy_digest 20 3) ["he"; "el"]%string None 0
                = Some (bf, s') /\
    length bf = Z.to_nat 20 /\ (["he"; "el"]%string <> [] -> (0 < popcount bf)%nat).
Proof.
  assert (forall (n s : Z), 0 < n -> 0 <= (randbelow n s).1 < n) as Hr.
  { intros n s Hn. simpl. by apply Z.mod_pos_bound. }
  assert (RandomHashing_init toy_digest 20 3 = Some (mk_RH_rec toy_digest 20 3)) as Hi
    by reflexivity.
  split; [exact Hr|]. split; [exact Hi|].
  exact (hash_q_gram_set_shape Hr toy_digest 20 3 _ ["he"; "el"]%string None 0 Hi).
Defined.

Lemma hash_q_gram_set_union_witness :
  (forall (n s : Z), 0 < n -> 0 <= (randbelow n s).1 < n) /\
  RandomHashing_init toy_digest 20 3 = Some (mk_RH_rec toy_digest 20 3) /\
  exists bf1 bf2 s1' s2' s3',
    hash_q_gram_set (mk_RH_rec toy_digest 20 3) ["he"]%string None 0 = Some (bf1, s1') /\
    hash_q_gram_set (mk_RH_rec toy_digest 20 3) ["el"; "ll"]%string None 4 = Some (bf2, s2') /\
    hash_q_gram_set (mk_RH_rec toy_digest 20 3) (["he"%string] ++ ["el"; "ll"]%string) None 9
    = Some (zip_with orb bf1 bf2, s3').
Proof.
  assert (forall (n s : Z), 0 < n -> 0 <= (randbelow n s).1 < n) as Hr.
  { intros n s Hn. simpl. by apply Z.mod_pos_bound. }
  assert (RandomHashing_init toy_digest 20 3 = Some (mk_RH_rec toy_digest 20 3)) as Hi
    by reflexivity.
  split; [exact Hr|]. split; [exact Hi|].
  exact (hash_q_gram_set_union Hr toy_digest 20 3 _ ["he"]%string ["el"; "ll"]%string None
           0 4 9 Hi).
Defined.

Lemma hash_q_gram_set_pos_keys_witness :
  (forall (n s : Z), 0 < n -> 0 <= (randbelow n s).1 < n) /\
  RandomHashing_init toy_digest 20 3 = Some (mk_RH_rec toy_digest 20 3) /\
  exists bf pd s', hash_q_gram_set_pos (mk_RH_rec toy_digest 20 3) ["he"; "el"]%string
                     (Some "x"%string) 0 = Some (bf, pd, s') /\
    List.NoDup (map fst pd) /\
    (forall key, In key (map fst pd)
                 <-> In key (map (fun q => salted q (Some "x"%string)) ["he"; "el"]%string)) /\
    (List.NoDup ["he"; "el"]%string -> length pd = length ["he"; "el"]%string).
Proof.
  assert (forall (n s : Z), 0 < n -> 0 <= (randbelow n s).1 < n) as Hr.
  { intros n s Hn. simpl. by apply Z.mod_pos_bound. }
  assert (RandomHashing_init toy_digest 20 3 = Some (mk_RH_rec toy_digest 20 3)) as Hi
    by reflexivity.
  split; [exact Hr|]. split; [exact Hi|].
  exact (hash_q_gram_set_pos_keys Hr toy_digest 20 3 _ ["he"; "el"]%string (Some "x"%string)
           0 Hi).
Defined.

Lemma hash_q_gram_set_pos_sets_witness :
  (forall (n s : Z), 0 < n -> 0 <= (randbelow n s).1 < n) /\
  RandomHashing_init toy_digest 20 3 = Some (mk_RH_rec toy_digest 20 3) /\
  exists bf pd s', hash_q_gram_set_pos (mk_RH_rec toy_digest 20 3) ["he"; "el"]%string
                     None 0 = Some (bf, pd, s') /\
    forall key ps, In (key, ps) pd ->
      List.NoDup ps /\ (0 < length ps <= Z.to_nat 3)%nat /\ Forall (fun x => 0 <= x < 20) ps /\
      (forall x, In x ps <-> In x (q_gram_positions (mk_RH_rec toy_digest 20 3) None key)).
Proof.
  assert (forall (n s : Z), 0 < n -> 0 <= (randbelow n s).1 < n) as Hr.
  { intros n s Hn. simpl. by apply Z.mod_pos_bound. }
  assert (RandomHashing_init toy_digest 20 3 = Some (mk_RH_rec toy_digest 20 3)) as Hi
    by reflexivity.
  split; [exact Hr|]. split; [exact Hi|].
  exact (hash_q_gram_set_pos_sets Hr toy_digest 20 3 _ ["he"; "el"]%string None 0 Hi).
Defined.

Lemma hash_q_gram_set_pos_bits_witness :
  (forall (n s : Z), 0 < n -> 0 <= (randbelow n s).1 < n) /\
  RandomHashing_init toy_digest 20 3 = Some (mk_RH_rec toy_digest 20 3) /\
  exists bf pd s', hash_q_gram_set_pos (mk_RH_rec toy_digest 20 3) ["he"; "el"]%string
                     None 0 = Some (bf, pd, s') /\
    forall i, bf !! i = Some true <-> exists key ps, In (key, ps) pd /\ In (Z.of_nat i) ps.
Proof.
  assert (forall (n s : Z), 0 < n -> 0 <= (randbelow n s).1 < n) as Hr.
  { intros n s Hn. simpl. by apply Z.mod_pos_bound. }
  assert (RandomHashing_init toy_digest 20 3 = Some (mk_RH_rec toy_digest 20 3)) as Hi
    by reflexivity.
  split; [exact Hr|]. split; [exact Hi|].
  exact (hash_q_gram_set_pos_bits Hr toy_digest 20 3 _ ["he"; "el"]%string None 0 Hi).
Defined.

Lemma read_extracted_data_shape_witness :
  read_extracted_data sample_eval sample_csv (-11987)
  = Some (map (fun t => (t, [(("id_" ++ t)%string, mk_rec ["{'ab', 'bc'}"%string] None None)]))
              FILTERED_ID_TYPES) /\
  exists rows, sample_csv = ["rec_id"; "q_gram_set"; "type"]%string :: rows /\
    Z.of_nat (length rows) = -11987 + 12000 /\
    List.NoDup (map (fun row => (nth_error row 0, nth_error row 2)) rows) /\
    List.NoDup (map fst (map (fun t => (t, [(("id_" ++ t)%string,
                                             mk_rec ["{'ab', 'bc'}"%string] None None)]))
                           FILTERED_ID_TYPES)) /\
    (forall t, In t (map fst (map (fun t => (t, [(("id_" ++ t)%string,
                                                  mk_rec ["{'ab', 'bc'}"%string] None None)]))
                                FILTERED_ID_TYPES)) <-> In t FILTERED_ID_TYPES).
Proof.
  assert (read_extracted_data sample_eval sample_csv (-11987)
          = Some (map (fun t => (t, [(("id_" ++ t)%string,
                                      mk_rec ["{'ab', 'bc'}"%string] None None)]))
                      FILTERED_ID_TYPES)) as E by (vm_compute; reflexivity).
  split; [exact E|]. exact (read_extracted_data_shape sample_eval sample_csv (-11987) _ E).
Defined.

Lemma read_extracted_data_records_witness :
  read_extracted_data sample_eval sample_csv (-11987)
  = Some (map (fun t => (t, [(("id_" ++ t)%string, mk_rec ["{'ab', 'bc'}"%string] None None)]))
              FILTERED_ID_TYPES) /\
  (lookup_record (map (fun t => (t, [(("id_" ++ t)%string,
                                      mk_rec ["{'ab', 'bc'}"%string] None None)]))
                      FILTERED_ID_TYPES) "r2" "id_r2"
   = Some (mk_rec ["{'ab', 'bc'}"%string] None None)
   <-> exists row field qs, In row (tl sample_csv) /\ nth_error row 0 = Some "id_r2"%string /\
      nth_error row 1 = Some field /\ nth_error row 2 = Some "r2"%string /\
      sample_eval field = Some qs /\ mk_rec ["{'ab', 'bc'}"%string] None None = mk_rec qs None None).
Proof.
  assert (read_extracted_data sample_eval sample_csv (-11987)
          = Some (map (fun t => (t, [(("id_" ++ t)%string,
                                      mk_rec ["{'ab', 'bc'}"%string] None None)]))
                      FILTERED_ID_TYPES)) as E by (vm_compute; reflexivity).
  split; [exact E|].
  exact (read_extracted_data_records sample_eval sample_csv (-11987) _ E "r2" "id_r2" _).
Defined.

Lemma encode_bfs_result_witness :
  (forall (n s : Z), 0 < n -> 0 <= (randbelow n s).1 < n) /\
  (encode_bfs toy_digest 20 2 [("f_h", [("a", sample_rec)])]%string 0 = None
   <-> ~ (1 < 20 /\ 0 < 2)) /\
  (1 < 20 -> 0 < 2 ->
   exists s', encode_bfs toy_digest 20 2 [("f_h", [("a", sample_rec)])]%string 0
     = Some (map (fun tkv => (tkv.1, map (fun kv => (kv.1, set_og_bf kv.2
               (mark (replicate (Z.to_nat 20) false)
                  (flat_map (q_gram_positions (mk_RH_rec toy_digest 20 2) None)
                     (q_gram_set kv.2))))) tkv.2))
               [("f_h", [("a", sample_rec)])]%string, s')).
Proof.
  assert (forall (n s : Z), 0 < n -> 0 <= (randbelow n s).1 < n) as Hr.
  { intros n s Hn. simpl. by apply Z.mod_pos_bound. }
  split; [exact Hr|].
  exact (encode_bfs_result Hr toy_digest 20 2 [("f_h", [("a", sample_rec)])]%string 0).
Defined.

Lemma encode_bfs_same_q_grams_witness :
  (forall (n s : Z), 0 < n -> 0 <= (randbelow n s).1 < n) /\
  encode_bfs toy_digest 20 2
    [("f_h", [("a", mk_rec ["ab"; "bc"] None None)]);
     ("b", [("c", mk_rec ["bc"; "ab"] None None)])]%string 0
  = Some ([("f_h", [("a", mk_rec ["ab"; "bc"]
              (Some [false; false; false; false; true; true; false; false; false; false;
                     false; false; true; true; false; false; false; false; false; false])
              None)]);
           ("b", [("c", mk_rec ["bc"; "ab"]
              (Some [false; false; false; false; true; true; false; false; false; false;
                     false; false; true; true; false; false; false; false; false; false])
              None)])]%string, 132934) /\
  og_bf (mk_rec ["ab"; "bc"]%string
           (Some [false; false; false; false; true; true; false; false; false; false;
                  false; false; true; true; false; false; false; false; false; false]) None)
  = og_bf (mk_rec ["bc"; "ab"]%string
           (Some [false; false; false; false; true; true; false; false; false; false;
                  false; false; true; true; false; false; false; false; false; false]) None) /\
  og_bf (mk_rec ["ab"; "bc"]%string
           (Some [false; false; false; false; true; true; false; false; false; false;
                  false; false; true; true; false; false; false; false; false; false]) None)
  <> None.
Proof.
  set (bf := [false; false; false; false; true; true; false; false; false; false;
              false; false; true; true; false; false; false; false; false; false]).
  set (r1 := mk_rec ["ab"; "bc"]%string (Some bf) None).
  set (r2 := mk_rec ["bc"; "ab"]%string (Some bf) None).
  assert (encode_bfs toy_digest 20 2
            [("f_h", [("a", mk_rec ["ab"; "bc"] None None)]);
             ("b", [("c", mk_rec ["bc"; "ab"] None None)])]%string 0
          = Some ([("f_h", [("a", r1)]); ("b", [("c", r2)])]%string, 132934)) as E
    by (vm_compute; reflexivity).
  assert (forall (n s : Z), 0 < n -> 0 <= (randbelow n s).1 < n) as Hr.
  { intros n s Hn. simpl. by apply Z.mod_pos_bound. }
  split; [exact Hr|]. split; [exact E|].
  apply (encode_bfs_same_q_grams Hr toy_digest 20 2 _ _ 0 132934 "f_h"%string "b"%string "a"%string "c"%string
           [("a", r1)]%string [("c", r2)]%string r1 r2 E).
  - by left.
  - by left.
  - by right; left.
  - by left.
  - intros q. simpl. tauto.
Defined.

Lemma encode_bfs_k_val_abort_witness :
  (forall (n s : Z), 0 < n -> 0 <= (randbelow n s).1 < n) /\
  0 < 64 /\ ((1#2) = 1#2 \/ (1#2) = 1 \/ (1#2) = 2)%Q /\ 0 < 1 /\
  (encode_bfs toy_digest 64 (k_val_of (1#2) 1) [] 0 = None <->
   64 = 1 \/ ((1#2)%Q = (1#2)%Q /\ 1 = 1)).
Proof.
  assert (forall (n s : Z), 0 < n -> 0 <= (randbelow n s).1 < n) as Hr.
  { intros n s Hn. simpl. by apply Z.mod_pos_bound. }
  assert (0 < 64) as H1 by lia.
  assert (((1#2) = 1#2 \/ (1#2) = 1 \/ (1#2) = 2)%Q) as H2 by (left; reflexivity).
  assert (0 < 1) as H3 by lia.
  split; [exact Hr|]. split; [exact H1|]. split; [exact H2|]. split; [exact H3|].
  exact (encode_bfs_k_val_abort Hr toy_digest 64 (1#2) 1 [] 0 H1 H2 H3).
Defined.

Lemma compare_record_pairs_totals_witness :
  compare_record_pairs [("b", []); ("f_h", sample_subset 3)]%string ala (1#2) (-997) 0
  = Some ([("f_h"%string, (mk_counters 0 0 3 0, mk_counters 0 0 3 0))], 14) /\
  In "b"%string (map fst [("b", []); ("f_h", sample_subset 3)]%string) /\
  Forall2 (fun tkv tcc => tkv.1 = tcc.1 /\ counters_total tcc.2.1 = length tkv.2
                          /\ counters_total tcc.2.2 = length tkv.2)
    (List.filter (fun tkv => negb (String.eqb tkv.1 "b")) [("b", []); ("f_h", sample_subset 3)]%string)
    [("f_h"%string, (mk_counters 0 0 3 0, mk_counters 0 0 3 0))].
Proof.
  assert (compare_record_pairs [("b", []); ("f_h", sample_subset 3)]%string ala (1#2) (-997) 0
          = Some ([("f_h"%string, (mk_counters 0 0 3 0, mk_counters 0 0 3 0))], 14)) as E
    by (vm_compute; reflexivity).
  split; [exact E|].
  exact (compare_record_pairs_totals _ ala (1#2) (-997) 0 _ _ E).
Defined.

Lemma process_subset_og_never_wrong_witness :
  List.NoDup (map fst (sample_subset 3)) /\
  Forall (fun kv => exists og, og_bf kv.2 = Some og /\ (0 < popcount og)%nat) (sample_subset 3) /\
  process_subset ala (1#2) [] (sample_subset 3) (-997) 0
  = Some (mk_counters 0 0 3 0, mk_counters 0 0 3 0, 14) /\
  c11_wrong (mk_counters 0 0 3 0) = 0%nat /\ c1n_wrong (mk_counters 0 0 3 0) = 0%nat.
Proof.
  assert (List.NoDup (map fst (sample_subset 3))) as Hnd.
  { vm_compute. repeat constructor; simpl; intuition discriminate. }
  assert (Forall (fun kv => exists og, og_bf kv.2 = Some og /\ (0 < popcount og)%nat)
            (sample_subset 3)) as Hf.
  { vm_compute. repeat constructor; eexists; (split; [reflexivity|simpl; lia]). }
  assert (process_subset ala (1#2) [] (sample_subset 3) (-997) 0
          = Some (mk_counters 0 0 3 0, mk_counters 0 0 3 0, 14)) as E
    by (vm_compute; reflexivity).
  split; [exact Hnd|]. split; [exact Hf|]. split; [exact E|].
  exact (process_subset_og_never_wrong ala (1#2) [] (sample_subset 3) (-997) 0 _ _ _ Hnd Hf E).
Defined.

Lemma comparison_pool_contents_witness :
  List.NoDup (map fst [("b1", sample_rec); ("s1", sample_rec)]%string) /\
  List.NoDup (map fst [("s1", sample_rec)]%string) /\
  List.NoDup (map fst (comparison_pool [("b1", sample_rec); ("s1", sample_rec)]%string
                         [("s1", sample_rec)]%string 0).1) /\
  (forall k r, In (k, r) (comparison_pool [("b1", sample_rec); ("s1", sample_rec)]%string
                           [("s1", sample_rec)]%string 0).1
               <-> In (k, r) [("s1", sample_rec)]%string
                   \/ (In (k, r) [("b1", sample_rec); ("s1", sample_rec)]%string
                       /\ ~ In k (map fst [("s1", sample_rec)]%string))) /\
  length (comparison_pool [("b1", sample_rec); ("s1", sample_rec)]%string
            [("s1", sample_rec)]%string 0).1
  = (length [("s1", sample_rec)]%string
     + length (List.filter (fun kv => negb (dict_mem [("s1", sample_rec)]%string kv.1))
                 [("b1", sample_rec); ("s1", sample_rec)]%string))%nat.
Proof.
  assert (List.NoDup (map fst [("b1", sample_rec); ("s1", sample_rec)]%string)) as H1.
  { simpl. repeat constructor; simpl; intuition discriminate. }
  assert (List.NoDup (map fst [("s1", sample_rec)]%string)) as H2.
  { simpl. repeat constructor; simpl; intuition discriminate. }
  split; [exact H1|]. split; [exact H2|].
  exact (comparison_pool_contents _ _ 0 H1 H2).
Defined.
